(** * Globe chart: aggregation, visual encoding, interaction and lifecycle

    A shallow embedding of
    [enviromental-front/src/app/components/charts/globe-chart/globe-chart.component.ts]
    and [enviromental-front/src/app/utils/country-coordinates.ts], followed by
    the properties of the globe subsystem that hold (or fail) on that code.

    Conventions of the embedding.
    - A JavaScript [number] is an extended rational: finite values are exact
      rationals, and the three IEEE-754 special values are kept, with the
      arithmetic and the comparisons JavaScript gives them (0/0 is NaN, x/0 is
      an infinity, every comparison with NaN is false).  Rounding, overflow of
      finite values and the sign of zero are not modelled.
    - A [Map] is an association list in insertion order, which is the order
      [Map.prototype.forEach] visits it in.
    - A nullable field is an [option]; dereferencing [null] raises a
      [TypeError], so handlers run in a state-and-exception monad.  What a
      handler assigned before it throws stays assigned: a [catch] block
      runs in the state the [try] block had reached.
    - The host (animation-frame scheduler, event emitters, Three.js calls) is
      part of the state: pending frame callbacks, and a log of the calls made. *)

From Stdlib Require Import QArith Qpower ZArith List String Ascii Bool Lia Lqa.
From Stdlib Require Import Sorted Permutation.
Import ListNotations.

Local Open Scope string_scope.
Local Open Scope Q_scope.

(** ** JavaScript numbers *)

Inductive number : Type :=
| Fin (q : Q)
| PosInf
| NegInf
| NaN.

Declare Scope js_scope.
Delimit Scope js_scope with js.
Bind Scope js_scope with number.

Module Number.

Definition Qltb (a b : Q) : bool := negb (Qle_bool b a).

Definition Qis0 (a : Q) : bool := Qeq_bool a 0.

(** The infinity of the given sign ([true] is positive). *)
Definition inf (positive : bool) : number :=
  if positive then PosInf else NegInf.

(** Unary minus. *)
Definition neg (a : number) : number :=
  match a with
  | Fin q => Fin (- q)
  | PosInf => NegInf
  | NegInf => PosInf
  | NaN => NaN
  end.

(** [a + b]. *)
Definition add (a b : number) : number :=
  match a, b with
  | NaN, _ | _, NaN => NaN
  | Fin x, Fin y => Fin (x + y)
  | PosInf, NegInf | NegInf, PosInf => NaN
  | PosInf, _ | _, PosInf => PosInf
  | NegInf, _ | _, NegInf => NegInf
  end.

(** [a - b]. *)
Definition sub (a b : number) : number := add a (neg b).

(** Sign of a non-NaN number as seen by a product with an infinity:
    [None] for zero. *)
Definition sign (a : number) : option bool :=
  match a with
  | Fin q => if Qis0 q then None else Some (Qltb 0 q)
  | PosInf => Some true
  | NegInf => Some false
  | NaN => None
  end.

(** [a * b]. *)
Definition mul (a b : number) : number :=
  match a, b with
  | NaN, _ | _, NaN => NaN
  | Fin x, Fin y => Fin (x * y)
  | _, _ =>
      match sign a, sign b with
      | Some sa, Some sb => inf (Bool.eqb sa sb)
      | _, _ => NaN   (* infinity times zero *)
      end
  end.

(** [a / b].  A zero divisor is the positive zero: the divisors of this
    program are a running maximum that starts at [0], a width, and the
    literal [180]. *)
Definition div (a b : number) : number :=
  match a, b with
  | NaN, _ | _, NaN => NaN
  | Fin x, Fin y =>
      if Qis0 y then
        (if Qis0 x then NaN else inf (Qltb 0 x))
      else Fin (x / y)
  | Fin _, _ => Fin 0
  | _, Fin y => inf (Bool.eqb (Qle_bool 0 y) (match a with PosInf => true | _ => false end))
  | _, _ => NaN   (* infinity over infinity *)
  end.

(** [a < b]. *)
Definition lt (a b : number) : bool :=
  match a, b with
  | NaN, _ | _, NaN => false
  | Fin x, Fin y => Qltb x y
  | NegInf, NegInf | PosInf, _ | _, NegInf => false
  | _, _ => true
  end.

(** [a > b]. *)
Definition gt (a b : number) : bool := lt b a.

(** [a <= b]. *)
Definition le (a b : number) : bool :=
  match a, b with
  | NaN, _ | _, NaN => false
  | Fin x, Fin y => Qle_bool x y
  | NegInf, _ | _, PosInf => true
  | _, _ => false
  end.

(** [Math.max(a, b)]. *)
Definition max (a b : number) : number :=
  match a, b with
  | NaN, _ | _, NaN => NaN
  | _, _ => if lt a b then b else a
  end.

(** [Math.min(a, b)]. *)
Definition min (a b : number) : number :=
  match a, b with
  | NaN, _ | _, NaN => NaN
  | _, _ => if lt b a then b else a
  end.

(** Two numbers denote the same value: finite values are compared as
    rationals, a special value only equals itself. *)
Definition same (a b : number) : Prop :=
  match a, b with
  | Fin x, Fin y => x == y
  | PosInf, PosInf | NegInf, NegInf | NaN, NaN => True
  | _, _ => False
  end.

(** [Math.PI], the binary64 value [0x1.921fb54442d18p+1]. *)
Definition PI_value : Q := 884279719003555 # 281474976710656.

Definition PI : number := Fin PI_value.

End Number.

Infix "+" := Number.add : js_scope.
Infix "-" := Number.sub : js_scope.
Infix "*" := Number.mul : js_scope.
Infix "/" := Number.div : js_scope.
Infix "<?" := Number.lt : js_scope.
Infix ">?" := Number.gt : js_scope.
Infix "<=?" := Number.le : js_scope.
Notation "- a" := (Number.neg a) : js_scope.
Infix "=n=" := Number.same (at level 70, no associativity).

(** A numeric literal of the source. *)
Coercion Fin : Q >-> number.

(** ** Data model ([models/emission.model.ts]) *)

Inductive EmissionType := CO2 | CH4 | N2O | F_GASES.

Inductive Activity := ENERGY | TRANSPORT | AGRICULTURE | INDUSTRIAL | WASTE | OTHER.

Module Emission.
Record t := mk {
  id : Z;
  year : Z;
  emissions : number;
  country : string;
  emission_type : EmissionType;
  activity : Activity;
  created_at : string
}.
End Emission.

(** The value type of the aggregation map,
    [{ country: string; totalEmissions: number; count: number }].  [count]
    only ever holds a record count, so it is a natural number. *)
Module Rollup.
Record t := mk {
  country : string;
  totalEmissions : number;
  count : nat
}.
End Rollup.

Module CountryCoordinate.
Record t := mk {
  lat : number;
  lng : number;
  name : string
}.
End CountryCoordinate.

(** The values interpolated into the HTML template of a point's label: the
    display name, the country code, the total (shown through [formatNumber])
    and the record count.  The markup around them is not modelled. *)
Module Label.
Record t := mk {
  name : string;
  country : string;
  total : number;
  records : nat
}.
End Label.

Module GlobePointData.
Record t := mk {
  lat : number;
  lng : number;
  country : string;
  totalEmissions : number;
  size : number;
  color : string;
  label : Label.t
}.
End GlobePointData.

(** ** [Map<string, V>] in insertion order *)

Module JsMap.
Section Ops.
Context {V : Type}.

Definition t := list (string * V).

Definition empty : t := [].

Fixpoint get (k : string) (m : t) : option V :=
  match m with
  | [] => None
  | (k', v) :: rest => if String.eqb k k' then Some v else get k rest
  end.

(** [set] overwrites the value of a present key where it stands, and
    appends an absent key. *)
Fixpoint set (k : string) (v : V) (m : t) : t :=
  match m with
  | [] => [(k, v)]
  | (k', v') :: rest =>
      if String.eqb k k' then (k', v) :: rest else (k', v') :: set k v rest
  end.

Definition keys (m : t) : list string := map fst m.

Definition values (m : t) : list V := map snd m.
End Ops.
Arguments t : clear implicits.
End JsMap.

(** ** [utils/country-coordinates.ts] *)

Definition mkCoord (lat lng : Q) (name : string) : CountryCoordinate.t :=
  CountryCoordinate.mk (Fin lat) (Fin lng) name.

(** The object literal [COUNTRY_COORDINATES], in source order. *)
Definition COUNTRY_COORDINATES : list (string * CountryCoordinate.t) :=
  [
    ("US", mkCoord 37.0902 (-95.7129) "United States");
    ("CA", mkCoord 56.1304 (-106.3468) "Canada");
    ("MX", mkCoord 23.6345 (-102.5528) "Mexico");
    ("GB", mkCoord 55.3781 (-3.436) "United Kingdom");
    ("FR", mkCoord 46.2276 2.2137 "France");
    ("DE", mkCoord 51.1657 10.4515 "Germany");
    ("IT", mkCoord 41.8719 12.5674 "Italy");
    ("ES", mkCoord 40.4637 (-3.7492) "Spain");
    ("PL", mkCoord 51.9194 19.1451 "Poland");
    ("RO", mkCoord 45.9432 24.9668 "Romania");
    ("NL", mkCoord 52.1326 5.2913 "Netherlands");
    ("BE", mkCoord 50.5039 4.4699 "Belgium");
    ("GR", mkCoord 39.0742 21.8243 "Greece");
    ("PT", mkCoord 39.3999 (-8.2245) "Portugal");
    ("CZ", mkCoord 49.8175 15.473 "Czech Republic");
    ("HU", mkCoord 47.1625 19.5033 "Hungary");
    ("SE", mkCoord 60.1282 18.6435 "Sweden");
    ("AT", mkCoord 47.5162 14.5501 "Austria");
    ("BG", mkCoord 42.7339 25.4858 "Bulgaria");
    ("DK", mkCoord 56.2639 9.5018 "Denmark");
    ("FI", mkCoord 61.9241 25.7482 "Finland");
    ("SK", mkCoord 48.669 19.699 "Slovakia");
    ("NO", mkCoord 60.472 8.4689 "Norway");
    ("IE", mkCoord 53.4129 (-8.2439) "Ireland");
    ("HR", mkCoord 45.1 15.2 "Croatia");
    ("LT", mkCoord 55.1694 23.8813 "Lithuania");
    ("SI", mkCoord 46.1512 14.9955 "Slovenia");
    ("LV", mkCoord 56.8796 24.6032 "Latvia");
    ("EE", mkCoord 58.5953 25.0136 "Estonia");
    ("CH", mkCoord 46.8182 8.2275 "Switzerland");
    ("RS", mkCoord 44.0165 21.0059 "Serbia");
    ("UA", mkCoord 48.3794 31.1656 "Ukraine");
    ("BY", mkCoord 53.7098 27.9534 "Belarus");
    ("RU", mkCoord 61.524 105.3188 "Russia");
    ("CN", mkCoord 35.8617 104.1954 "China");
    ("IN", mkCoord 20.5937 78.9629 "India");
    ("JP", mkCoord 36.2048 138.2529 "Japan");
    ("KR", mkCoord 35.9078 127.7669 "South Korea");
    ("ID", mkCoord (-0.7893) 113.9213 "Indonesia");
    ("TR", mkCoord 38.9637 35.2433 "Turkey");
    ("TH", mkCoord 15.87 100.9925 "Thailand");
    ("SA", mkCoord 23.8859 45.0792 "Saudi Arabia");
    ("PK", mkCoord 30.3753 69.3451 "Pakistan");
    ("BD", mkCoord 23.685 90.3563 "Bangladesh");
    ("VN", mkCoord 14.0583 108.2772 "Vietnam");
    ("MY", mkCoord 4.2105 101.9758 "Malaysia");
    ("PH", mkCoord 12.8797 121.774 "Philippines");
    ("SG", mkCoord 1.3521 103.8198 "Singapore");
    ("IQ", mkCoord 33.2232 43.6793 "Iraq");
    ("AF", mkCoord 33.9391 67.7099 "Afghanistan");
    ("MM", mkCoord 21.9162 95.956 "Myanmar");
    ("KZ", mkCoord 48.0196 66.9237 "Kazakhstan");
    ("AE", mkCoord 23.4241 53.8478 "United Arab Emirates");
    ("IL", mkCoord 31.0461 34.8516 "Israel");
    ("JO", mkCoord 30.5852 36.2384 "Jordan");
    ("LK", mkCoord 7.8731 80.7718 "Sri Lanka");
    ("NP", mkCoord 28.3949 84.124 "Nepal");
    ("BR", mkCoord (-14.235) (-51.9253) "Brazil");
    ("AR", mkCoord (-38.4161) (-63.6167) "Argentina");
    ("CO", mkCoord 4.5709 (-74.2973) "Colombia");
    ("CL", mkCoord (-35.6751) (-71.543) "Chile");
    ("PE", mkCoord (-9.19) (-75.0152) "Peru");
    ("VE", mkCoord 6.4238 (-66.5897) "Venezuela");
    ("EC", mkCoord (-1.8312) (-78.1834) "Ecuador");
    ("BO", mkCoord (-16.2902) (-63.5887) "Bolivia");
    ("PY", mkCoord (-23.4425) (-58.4438) "Paraguay");
    ("UY", mkCoord (-32.5228) (-55.7658) "Uruguay");
    ("ZA", mkCoord (-30.5595) 22.9375 "South Africa");
    ("EG", mkCoord 26.8206 30.8025 "Egypt");
    ("NG", mkCoord 9.082 8.6753 "Nigeria");
    ("KE", mkCoord (-0.0236) 37.9062 "Kenya");
    ("ET", mkCoord 9.145 40.4897 "Ethiopia");
    ("GH", mkCoord 7.9465 (-1.0232) "Ghana");
    ("TZ", mkCoord (-6.369) 34.8888 "Tanzania");
    ("DZ", mkCoord 28.0339 1.6596 "Algeria");
    ("MA", mkCoord 31.7917 (-7.0926) "Morocco");
    ("AO", mkCoord (-11.2027) 17.8739 "Angola");
    ("SD", mkCoord 12.8628 30.2176 "Sudan");
    ("UG", mkCoord 1.3733 32.2903 "Uganda");
    ("TN", mkCoord 33.8869 9.5375 "Tunisia");
    ("ZW", mkCoord (-19.0154) 29.1549 "Zimbabwe");
    ("LY", mkCoord 26.3351 17.2283 "Libya");
    ("CM", mkCoord 7.3697 12.3547 "Cameroon");
    ("SN", mkCoord 14.4974 (-14.4524) "Senegal");
    ("AU", mkCoord (-25.2744) 133.7751 "Australia");
    ("NZ", mkCoord (-40.9006) 174.886 "New Zealand");
    ("PG", mkCoord (-6.315) 143.9555 "Papua New Guinea");
    ("FJ", mkCoord (-17.7134) 178.065 "Fiji");
    ("GT", mkCoord 15.7835 (-90.2308) "Guatemala");
    ("CU", mkCoord 21.5218 (-77.7812) "Cuba");
    ("HT", mkCoord 18.9712 (-72.2852) "Haiti");
    ("DO", mkCoord 18.7357 (-70.1627) "Dominican Republic");
    ("HN", mkCoord 15.2 (-86.2419) "Honduras");
    ("SV", mkCoord 13.7942 (-88.8965) "El Salvador");
    ("NI", mkCoord 12.8654 (-85.2072) "Nicaragua");
    ("CR", mkCoord 9.7489 (-83.7534) "Costa Rica");
    ("PA", mkCoord 8.538 (-80.7821) "Panama");
    ("JM", mkCoord 18.1096 (-77.2975) "Jamaica");
    ("IR", mkCoord 32.4279 53.688 "Iran");
    ("SY", mkCoord 34.8021 38.9968 "Syria");
    ("YE", mkCoord 15.5527 48.5164 "Yemen");
    ("OM", mkCoord 21.4735 55.9754 "Oman");
    ("KW", mkCoord 29.3117 47.4818 "Kuwait");
    ("QA", mkCoord 25.3548 51.1839 "Qatar");
    ("BH", mkCoord 26.0667 50.5577 "Bahrain");
    ("LB", mkCoord 33.8547 35.8623 "Lebanon")
  ].

(** [String.prototype.toUpperCase] on the ASCII range; other code units are
    left as they are. *)
Definition upperAscii (c : ascii) : ascii :=
  let n := nat_of_ascii c in
  if (97 <=? n)%nat && (n <=? 122)%nat then ascii_of_nat (n - 32) else c.

Fixpoint toUpperCase (s : string) : string :=
  match s with
  | EmptyString => EmptyString
  | String c rest => String (upperAscii c) (toUpperCase rest)
  end.

(** Property read [COUNTRY_COORDINATES[key]].  Every key is an own property:
    the names [Object.prototype] supplies all carry a lowercase letter, and
    the keys looked up here are uppercased. *)
Definition propertyOf (key : string) : option CountryCoordinate.t :=
  JsMap.get key COUNTRY_COORDINATES.

Definition getCountryCoordinates (countryCode : string) : CountryCoordinate.t :=
  let coords := propertyOf (toUpperCase countryCode) in
  match coords with
  | Some c => c
  | None => CountryCoordinate.mk (Fin 0) (Fin 0) countryCode
  end.

Definition hasCountryCoordinates (countryCode : string) : bool :=
  match propertyOf (toUpperCase countryCode) with Some _ => true | None => false end.

Definition getAvailableCountryCodes : list string :=
  JsMap.keys COUNTRY_COORDINATES.

(** ** Aggregation and visual encoding ([GlobeChartComponent]) *)

Local Open Scope js_scope.

(** The callback of [emissions.forEach] in [aggregateEmissionsByCountry].
    Updating [existing] in place is a write to the entry the map holds. *)
Definition aggregateStep (aggregated : JsMap.t Rollup.t) (emission : Emission.t)
  : JsMap.t Rollup.t :=
  match JsMap.get (Emission.country emission) aggregated with
  | Some existing =>
      JsMap.set (Emission.country emission)
        (Rollup.mk (Rollup.country existing)
           (Rollup.totalEmissions existing + Emission.emissions emission)
           (Rollup.count existing + 1)%nat)
        aggregated
  | None =>
      JsMap.set (Emission.country emission)
        (Rollup.mk (Emission.country emission) (Emission.emissions emission) 1%nat)
        aggregated
  end.

Definition aggregateEmissionsByCountry (emissions : list Emission.t)
  : JsMap.t Rollup.t :=
  fold_left aggregateStep emissions JsMap.empty.

Definition getColorForEmissions (normalized : number) : string :=
  if normalized <? 0.25 then "#00ff00"
  else if normalized <? 0.5 then "#ffff00"
  else if normalized <? 0.75 then "#ff8800"
  else "#ff0000".

(** The first [countryData.forEach] of [transformToGlobePoints]. *)
Definition maxStep (maxEmissions : number) (data : Rollup.t) : number :=
  if Rollup.totalEmissions data >? maxEmissions
  then Rollup.totalEmissions data else maxEmissions.

Definition maxEmissionsOf (countryData : JsMap.t Rollup.t) : number :=
  fold_left maxStep (JsMap.values countryData) (Fin 0).

(** The local [normalizedEmissions] of the second loop. *)
Definition normalizedEmissions (maxEmissions : number) (data : Rollup.t) : number :=
  Rollup.totalEmissions data / maxEmissions.

(** The local [size] of the second loop. *)
Definition sizeOf (normalized : number) : number :=
  0.05 + normalized * 0.3.

(** The body of the second [countryData.forEach]: the point pushed. *)
Definition toGlobePoint (maxEmissions : number) (data : Rollup.t) : GlobePointData.t :=
  let coords := getCountryCoordinates (Rollup.country data) in
  let normalizedEmissions := normalizedEmissions maxEmissions data in
  let size := sizeOf normalizedEmissions in
  let color := getColorForEmissions normalizedEmissions in
  GlobePointData.mk
    (CountryCoordinate.lat coords)
    (CountryCoordinate.lng coords)
    (Rollup.country data)
    (Rollup.totalEmissions data)
    size
    color
    (Label.mk (CountryCoordinate.name coords) (Rollup.country data)
       (Rollup.totalEmissions data) (Rollup.count data)).

Definition transformToGlobePoints (countryData : JsMap.t Rollup.t)
  : list GlobePointData.t :=
  let maxEmissions := maxEmissionsOf countryData in
  map (toGlobePoint maxEmissions) (JsMap.values countryData).

(** ** What the aggregation is compared with

    The records of one country code, and the sum of a list of numbers taken
    in list order. *)

Definition recordsOf (code : string) (emissions : list Emission.t) : list Emission.t :=
  filter (fun e => String.eqb (Emission.country e) code) emissions.

Definition sumOf (l : list number) : number :=
  match l with
  | [] => Fin 0
  | a :: rest => fold_left Number.add rest a
  end.

Definition totalFor (code : string) (emissions : list Emission.t) : number :=
  sumOf (map Emission.emissions (recordsOf code emissions)).

Definition countFor (code : string) (emissions : list Emission.t) : nat :=
  List.length (recordsOf code emissions).

(** ** The component's objects *)

Module Rotation.
Record t := mk { x : number; y : number }.
End Rotation.

(** [THREE.Vector2], the pointer in normalized device coordinates. *)
Module Vector2.
Record t := mk { x : number; y : number }.
End Vector2.

(** What a [THREE.Scene] holds. *)
Inductive SceneObject := GlobeObject | AmbientLight | DirectionalLight | BackLight.

Definition SceneObject_eqb (a b : SceneObject) : bool :=
  match a, b with
  | GlobeObject, GlobeObject | AmbientLight, AmbientLight
  | DirectionalLight, DirectionalLight | BackLight, BackLight => true
  | _, _ => false
  end.

Record Scene := { children : list SceneObject }.

Record Camera := { aspect : number }.

(** The renderer's drawing-buffer size, as last given to [setSize]. *)
Record Renderer := { width : number; height : number }.

(** The [ThreeGlobe] instance: its [rotation] and its [pointsData]. *)
Record Globe := { rotation : Rotation.t; pointsData : list GlobePointData.t }.

Inductive Raycaster := TheRaycaster.

Inductive ResizeObserver := TheResizeObserver.

(** [globeContainer.nativeElement]: its client size, and whether a canvas
    of its document is given a WebGL context.  Where it is not,
    [new THREE.WebGLRenderer] throws. *)
Record Container := {
  clientWidth : number;
  clientHeight : number;
  webglAvailable : bool
}.

(** Calls that leave the component, in the order made (latest first), and
    the entries into [handleCountryClick]. *)
Inductive Call :=
| RequestAnimationFrame (id : nat)
| CancelAnimationFrame (id : nat)
| Render                                   (* renderer.render(scene, camera) *)
| RendererDispose
| DomElementRemove
| ObserverDisconnect
| AddEventListener (type : string)
| ConsoleError (message : string)
| HandleCountryClick
| EmitCountrySelected (country : string)
| EmitCountryHovered (country : option string).

(** Where [initializeGlobeAsync] stands: not called, suspended at the
    [await] of the dynamic imports, or past it. *)
Inductive Acquisition := NotStarted | InFlight | Settled.

(** What a handler can throw: a dereference of [null], the rejection of
    the awaited dynamic imports, or the renderer's constructor where there
    is no WebGL context. *)
Inductive JsError := TypeError | ImportError | ContextError.

(** The state of one component instance with the part of the host it
    talks to: the frame callbacks that are pending, the next frame id, and
    the calls made so far. *)
Module World.
Record t := mk {
  isBrowser : bool;
  globeContainer : option Container;
  emissions : list Emission.t;
  selectedCountry : option string;
  loading : bool;
  error : option string;
  hoveredCountry : option string;
  scene : option Scene;
  camera : option Camera;
  renderer : option Renderer;
  globe : option Globe;
  animationFrameId : option nat;
  resizeObserver : option ResizeObserver;
  raycaster : option Raycaster;
  mouse : option Vector2.t;
  isUserInteracting : bool;
  mouseDownTime : Z;
  targetRotation : Rotation.t;
  currentRotation : Rotation.t;
  acquisition : Acquisition;
  pendingFrames : list nat;
  nextFrameId : nat;
  calls : list Call
}.

Definition set_emissions (v : list Emission.t) (w : t) : t :=
  mk (isBrowser w) (globeContainer w) v (selectedCountry w) (loading w)
    (error w) (hoveredCountry w) (scene w) (camera w) (renderer w) (globe w)
    (animationFrameId w) (resizeObserver w) (raycaster w) (mouse w)
    (isUserInteracting w) (mouseDownTime w) (targetRotation w)
    (currentRotation w) (acquisition w) (pendingFrames w) (nextFrameId w)
    (calls w).

Definition set_selectedCountry (v : option string) (w : t) : t :=
  mk (isBrowser w) (globeContainer w) (emissions w) v (loading w) (error w)
    (hoveredCountry w) (scene w) (camera w) (renderer w) (globe w)
    (animationFrameId w) (resizeObserver w) (raycaster w) (mouse w)
    (isUserInteracting w) (mouseDownTime w) (targetRotation w)
    (currentRotation w) (acquisition w) (pendingFrames w) (nextFrameId w)
    (calls w).

Definition set_loading (v : bool) (w : t) : t :=
  mk (isBrowser w) (globeContainer w) (emissions w) (selectedCountry w) v
    (error w) (hoveredCountry w) (scene w) (camera w) (renderer w) (globe w)
    (animationFrameId w) (resizeObserver w) (raycaster w) (mouse w)
    (isUserInteracting w) (mouseDownTime w) (targetRotation w)
    (currentRotation w) (acquisition w) (pendingFrames w) (nextFrameId w)
    (calls w).

Definition set_error (v : option string) (w : t) : t :=
  mk (isBrowser w) (globeContainer w) (emissions w) (selectedCountry w)
    (loading w) v (hoveredCountry w) (scene w) (camera w) (renderer w)
    (globe w) (animationFrameId w) (resizeObserver w) (raycaster w) (mouse w)
    (isUserInteracting w) (mouseDownTime w) (targetRotation w)
    (currentRotation w) (acquisition w) (pendingFrames w) (nextFrameId w)
    (calls w).

Definition set_hoveredCountry (v : option string) (w : t) : t :=
  mk (isBrowser w) (globeContainer w) (emissions w) (selectedCountry w)
    (loading w) (error w) v (scene w) (camera w) (renderer w) (globe w)
    (animationFrameId w) (resizeObserver w) (raycaster w) (mouse w)
    (isUserInteracting w) (mouseDownTime w) (targetRotation w)
    (currentRotation w) (acquisition w) (pendingFrames w) (nextFrameId w)
    (calls w).

Definition set_scene (v : option Scene) (w : t) : t :=
  mk (isBrowser w) (globeContainer w) (emissions w) (selectedCountry w)
    (loading w) (error w) (hoveredCountry w) v (camera w) (renderer w)
    (globe w) (animationFrameId w) (resizeObserver w) (raycaster w) (mouse w)
    (isUserInteracting w) (mouseDownTime w) (targetRotation w)
    (currentRotation w) (acquisition w) (pendingFrames w) (nextFrameId w)
    (calls w).

Definition set_camera (v : option Camera) (w : t) : t :=
  mk (isBrowser w) (globeContainer w) (emissions w) (selectedCountry w)
    (loading w) (error w) (hoveredCountry w) (scene w) v (renderer w)
    (globe w) (animationFrameId w) (resizeObserver w) (raycaster w) (mouse w)
    (isUserInteracting w) (mouseDownTime w) (targetRotation w)
    (currentRotation w) (acquisition w) (pendingFrames w) (nextFrameId w)
    (calls w).

Definition set_renderer (v : option Renderer) (w : t) : t :=
  mk (isBrowser w) (globeContainer w) (emissions w) (selectedCountry w)
    (loading w) (error w) (hoveredCountry w) (scene w) (camera w) v (globe w)
    (animationFrameId w) (resizeObserver w) (raycaster w) (mouse w)
    (isUserInteracting w) (mouseDownTime w) (targetRotation w)
    (currentRotation w) (acquisition w) (pendingFrames w) (nextFrameId w)
    (calls w).

Definition set_globe (v : option Globe) (w : t) : t :=
  mk (isBrowser w) (globeContainer w) (emissions w) (selectedCountry w)
    (loading w) (error w) (hoveredCountry w) (scene w) (camera w) (renderer w)
    v (animationFrameId w) (resizeObserver w) (raycaster w) (mouse w)
    (isUserInteracting w) (mouseDownTime w) (targetRotation w)
    (currentRotation w) (acquisition w) (pendingFrames w) (nextFrameId w)
    (calls w).

Definition set_animationFrameId (v : option nat) (w : t) : t :=
  mk (isBrowser w) (globeContainer w) (emissions w) (selectedCountry w)
    (loading w) (error w) (hoveredCountry w) (scene w) (camera w) (renderer w)
    (globe w) v (resizeObserver w) (raycaster w) (mouse w)
    (isUserInteracting w) (mouseDownTime w) (targetRotation w)
    (currentRotation w) (acquisition w) (pendingFrames w) (nextFrameId w)
    (calls w).

Definition set_resizeObserver (v : option ResizeObserver) (w : t) : t :=
  mk (isBrowser w) (globeContainer w) (emissions w) (selectedCountry w)
    (loading w) (error w) (hoveredCountry w) (scene w) (camera w) (renderer w)
    (globe w) (animationFrameId w) v (raycaster w) (mouse w)
    (isUserInteracting w) (mouseDownTime w) (targetRotation w)
    (currentRotation w) (acquisition w) (pendingFrames w) (nextFrameId w)
    (calls w).

Definition set_raycaster (v : option Raycaster) (w : t) : t :=
  mk (isBrowser w) (globeContainer w) (emissions w) (selectedCountry w)
    (loading w) (error w) (hoveredCountry w) (scene w) (camera w) (renderer w)
    (globe w) (animationFrameId w) (resizeObserver w) v (mouse w)
    (isUserInteracting w) (mouseDownTime w) (targetRotation w)
    (currentRotation w) (acquisition w) (pendingFrames w) (nextFrameId w)
    (calls w).

Definition set_mouse (v : option Vector2.t) (w : t) : t :=
  mk (isBrowser w) (globeContainer w) (emissions w) (selectedCountry w)
    (loading w) (error w) (hoveredCountry w) (scene w) (camera w) (renderer w)
    (globe w) (animationFrameId w) (resizeObserver w) (raycaster w) v
    (isUserInteracting w) (mouseDownTime w) (targetRotation w)
    (currentRotation w) (acquisition w) (pendingFrames w) (nextFrameId w)
    (calls w).

Definition set_isUserInteracting (v : bool) (w : t) : t :=
  mk (isBrowser w) (globeContainer w) (emissions w) (selectedCountry w)
    (loading w) (error w) (hoveredCountry w) (scene w) (camera w) (renderer w)
    (globe w) (animationFrameId w) (resizeObserver w) (raycaster w) (mouse w)
    v (mouseDownTime w) (targetRotation w) (currentRotation w) (acquisition w)
    (pendingFrames w) (nextFrameId w) (calls w).

Definition set_mouseDownTime (v : Z) (w : t) : t :=
  mk (isBrowser w) (globeContainer w) (emissions w) (selectedCountry w)
    (loading w) (error w) (hoveredCountry w) (scene w) (camera w) (renderer w)
    (globe w) (animationFrameId w) (resizeObserver w) (raycaster w) (mouse w)
    (isUserInteracting w) v (targetRotation w) (currentRotation w)
    (acquisition w) (pendingFrames w) (nextFrameId w) (calls w).

Definition set_targetRotation (v : Rotation.t) (w : t) : t :=
  mk (isBrowser w) (globeContainer w) (emissions w) (selectedCountry w)
    (loading w) (error w) (hoveredCountry w) (scene w) (camera w) (renderer w)
    (globe w) (animationFrameId w) (resizeObserver w) (raycaster w) (mouse w)
    (isUserInteracting w) (mouseDownTime w) v (currentRotation w)
    (acquisition w) (pendingFrames w) (nextFrameId w) (calls w).

Definition set_currentRotation (v : Rotation.t) (w : t) : t :=
  mk (isBrowser w) (globeContainer w) (emissions w) (selectedCountry w)
    (loading w) (error w) (hoveredCountry w) (scene w) (camera w) (renderer w)
    (globe w) (animationFrameId w) (resizeObserver w) (raycaster w) (mouse w)
    (isUserInteracting w) (mouseDownTime w) (targetRotation w) v
    (acquisition w) (pendingFrames w) (nextFrameId w) (calls w).

Definition set_acquisition (v : Acquisition) (w : t) : t :=
  mk (isBrowser w) (globeContainer w) (emissions w) (selectedCountry w)
    (loading w) (error w) (hoveredCountry w) (scene w) (camera w) (renderer w)
    (globe w) (animationFrameId w) (resizeObserver w) (raycaster w) (mouse w)
    (isUserInteracting w) (mouseDownTime w) (targetRotation w)
    (currentRotation w) v (pendingFrames w) (nextFrameId w) (calls w).

Definition set_pendingFrames (v : list nat) (w : t) : t :=
  mk (isBrowser w) (globeContainer w) (emissions w) (selectedCountry w)
    (loading w) (error w) (hoveredCountry w) (scene w) (camera w) (renderer w)
    (globe w) (animationFrameId w) (resizeObserver w) (raycaster w) (mouse w)
    (isUserInteracting w) (mouseDownTime w) (targetRotation w)
    (currentRotation w) (acquisition w) v (nextFrameId w) (calls w).

Definition set_nextFrameId (v : nat) (w : t) : t :=
  mk (isBrowser w) (globeContainer w) (emissions w) (selectedCountry w)
    (loading w) (error w) (hoveredCountry w) (scene w) (camera w) (renderer w)
    (globe w) (animationFrameId w) (resizeObserver w) (raycaster w) (mouse w)
    (isUserInteracting w) (mouseDownTime w) (targetRotation w)
    (currentRotation w) (acquisition w) (pendingFrames w) v (calls w).

Definition set_calls (v : list Call) (w : t) : t :=
  mk (isBrowser w) (globeContainer w) (emissions w) (selectedCountry w)
    (loading w) (error w) (hoveredCountry w) (scene w) (camera w) (renderer w)
    (globe w) (animationFrameId w) (resizeObserver w) (raycaster w) (mouse w)
    (isUserInteracting w) (mouseDownTime w) (targetRotation w)
    (currentRotation w) (acquisition w) (pendingFrames w) (nextFrameId w) v.
End World.

(** ** Handlers: state and exceptions *)

(** A handler returns, or throws in the state it has reached: what it
    assigned before the throw stays assigned. *)
Inductive result (A : Type) : Type :=
| Ok (a : A)
| Throw (e : JsError) (w : World.t).
Arguments Ok {A} a.
Arguments Throw {A} e w.

Definition M (A : Type) : Type := World.t -> result (A * World.t).

Definition ret {A : Type} (a : A) : M A := fun w => Ok (a, w).

Definition bind {A B : Type} (m : M A) (k : A -> M B) : M B :=
  fun w =>
    match m w with
    | Ok (a, w') => k a w'
    | Throw e w' => Throw e w'
    end.

Notation "x <- m ;; k" := (bind m (fun x => k))
  (at level 61, m at next level, right associativity).
Notation "m ;; k" := (bind m (fun _ => k))
  (at level 61, right associativity).

(** Read a field. *)
Definition this {A : Type} (field : World.t -> A) : M A := fun w => Ok (field w, w).

(** Write a field (through one of the setters). *)
Definition assign (update : World.t -> World.t) : M unit := fun w => Ok (tt, update w).

(** Read a field to call a method or touch a property of what it holds:
    a [TypeError] when it holds [null]. *)
Definition deref {A : Type} (field : World.t -> option A) : M A :=
  fun w =>
    match field w with
    | Some a => Ok (a, w)
    | None => Throw TypeError w
    end.

Definition call (c : Call) : M unit :=
  assign (fun w => World.set_calls (c :: World.calls w) w).

Definition throw {A : Type} (e : JsError) : M A := fun w => Throw e w.

(** [try { body } catch (err) { handler }]. *)
Definition tryCatch (body : M unit) (handler : JsError -> M unit) : M unit :=
  fun w =>
    match body w with
    | Ok r => Ok r
    | Throw e w' => handler e w'
    end.

(** [if (cond) { body }]. *)
Definition when (cond : bool) (body : M unit) : M unit :=
  if cond then body else ret tt.

(** Truthiness of [T | null] for an object type [T]. *)
Definition truthy {A : Type} (o : option A) : bool :=
  match o with Some _ => true | None => false end.

(** Truthiness of [string | null]: the empty string is falsy. *)
Definition truthyString (o : option string) : bool :=
  match o with
  | Some s => negb (String.eqb s "")
  | None => false
  end.

(** [requestAnimationFrame(callback)], the callback being the component's
    [() => this.animate()]: a fresh id, queued. *)
Definition requestAnimationFrame : M nat :=
  fun w =>
    let id := World.nextFrameId w in
    Ok (id,
        World.set_calls (RequestAnimationFrame id :: World.calls w)
          (World.set_nextFrameId (S id)
             (World.set_pendingFrames (World.pendingFrames w ++ [id]) w))).

(** [cancelAnimationFrame(id)]. *)
Definition cancelAnimationFrame (id : nat) : M unit :=
  assign (fun w =>
    World.set_calls (CancelAnimationFrame id :: World.calls w)
      (World.set_pendingFrames
         (filter (fun i => negb (Nat.eqb i id)) (World.pendingFrames w)) w)).

Definition removeObject (o : SceneObject) (s : Scene) : Scene :=
  {| children := filter (fun c => negb (SceneObject_eqb c o)) (children s) |}.

Definition addObject (o : SceneObject) (s : Scene) : Scene :=
  {| children := children s ++ [o] |}.

(** ** [GlobeChartComponent] *)

Module GlobeChartComponent.
Import World.

(** A pointer event together with what the handler reads from the host
    while it runs: the canvas rectangle, and how many objects the ray
    cast from the pointer meets. *)
Record MouseEvent := {
  clientX : number;
  clientY : number;
  movementX : number;
  movementY : number;
  buttons : nat;
  rectLeft : number;
  rectTop : number;
  rectWidth : number;
  rectHeight : number;
  intersects : nat
}.

(** The fields as the class initialises them, for a given platform and
    view child. *)
Definition create (isBrowser : bool) (globeContainer : option Container) : World.t :=
  {| isBrowser := isBrowser;
     globeContainer := globeContainer;
     emissions := [];
     selectedCountry := None;
     loading := true;
     error := None;
     hoveredCountry := None;
     scene := None;
     camera := None;
     renderer := None;
     globe := None;
     animationFrameId := None;
     resizeObserver := None;
     raycaster := None;
     mouse := None;
     isUserInteracting := false;
     mouseDownTime := 0%Z;
     targetRotation := Rotation.mk 0 0;
     currentRotation := Rotation.mk 0 0;
     acquisition := NotStarted;
     pendingFrames := [];
     nextFrameId := 1%nat;
     calls := [] |}.

Definition updateGlobeData (emissions : list Emission.t) : M unit :=
  g <- this globe ;;
  if negb (truthy g) then ret tt else
  tryCatch
    (let countryData := aggregateEmissionsByCountry emissions in
     let globePoints := transformToGlobePoints countryData in
     g <- deref globe ;;
     assign (set_globe (Some {| rotation := rotation g; pointsData := globePoints |})))
    (fun err => call (ConsoleError "Failed to update globe data:")).

(** The conversion of [focusOnCountry] from coordinates to rotation
    angles, [{ x: targetX, y: targetY }]. *)
Definition rotationFor (coords : CountryCoordinate.t) : Rotation.t :=
  let targetY := (- CountryCoordinate.lng coords * Number.PI) / 180 in
  let targetX := (CountryCoordinate.lat coords * Number.PI) / 180 in
  Rotation.mk targetX targetY.

Definition focusOnCountry (countryCode : string) : M unit :=
  let coords := getCountryCoordinates countryCode in
  assign (set_targetRotation (rotationFor coords)).

Definition detectHoveredCountry (event : MouseEvent) : M unit :=
  r <- this raycaster ;; c <- this camera ;; s <- this scene ;; g <- this globe ;;
  if negb (truthy r) || negb (truthy c) || negb (truthy s) || negb (truthy g)
  then ret tt else
  _ <- deref raycaster ;;                       (* setFromCamera *)
  g <- deref globe ;;                           (* intersectObjects(globe.children) *)
  if (0 <? intersects event)%nat then
    g <- deref globe ;;
    let pointsData := pointsData g in
    ret tt
  else ret tt.

Definition handleCountryClick : M unit :=
  call HandleCountryClick ;;
  hoveredCountry <- this hoveredCountry ;;
  match hoveredCountry with
  | Some c => when (truthyString hoveredCountry) (call (EmitCountrySelected c))
  | None => ret tt
  end.

Definition onMouseMove (event : MouseEvent) : M unit :=
  r <- this renderer ;; c <- this camera ;; s <- this scene ;;
  if negb (truthy r) || negb (truthy c) || negb (truthy s) then ret tt else
  _ <- deref renderer ;;                        (* getBoundingClientRect *)
  m <- deref mouse ;;
  assign (set_mouse (Some (Vector2.mk
    ((clientX event - rectLeft event) / rectWidth event * 2 - 1)
    (Vector2.y m)))) ;;
  m <- deref mouse ;;
  assign (set_mouse (Some (Vector2.mk
    (Vector2.x m)
    (- ((clientY event - rectTop event) / rectHeight event) * 2 + 1)))) ;;
  ui <- this isUserInteracting ;;
  when (ui && Nat.eqb (buttons event) 1)
    (t <- this targetRotation ;;
     assign (set_targetRotation
       (Rotation.mk (Rotation.x t) (Rotation.y t + movementX event * 0.005))) ;;
     t <- this targetRotation ;;
     assign (set_targetRotation
       (Rotation.mk (Rotation.x t + movementY event * 0.005) (Rotation.y t))) ;;
     t <- this targetRotation ;;
     assign (set_targetRotation
       (Rotation.mk
          (Number.max (- Number.PI / 2) (Number.min (Number.PI / 2) (Rotation.x t)))
          (Rotation.y t)))) ;;
  detectHoveredCountry event.

Definition onMouseDown (now : Z) : M unit :=
  assign (set_isUserInteracting true) ;;
  assign (set_mouseDownTime now).

Definition onMouseUp (now : Z) : M unit :=
  assign (set_isUserInteracting false) ;;
  t <- this mouseDownTime ;;
  when (now - t <? 200)%Z handleCountryClick.

Definition onTouchStart (touches : nat) (now : Z) : M unit :=
  when (Nat.eqb touches 1)
    (assign (set_isUserInteracting true) ;;
     assign (set_mouseDownTime now)).

Definition onTouchMove : M unit := ret tt.

Definition setupEventListeners : M unit :=
  b <- this isBrowser ;; r <- this renderer ;;
  if negb b || negb (truthy r) then ret tt else
  _ <- deref renderer ;;                        (* renderer.domElement *)
  call (AddEventListener "mousemove") ;;
  call (AddEventListener "mousedown") ;;
  call (AddEventListener "mouseup") ;;
  call (AddEventListener "touchstart") ;;
  call (AddEventListener "touchmove").

Definition setupResizeObserver : M unit :=
  b <- this isBrowser ;; c <- this globeContainer ;;
  if negb b || negb (truthy c) then ret tt else
  assign (set_resizeObserver (Some TheResizeObserver)) ;;
  _ <- deref resizeObserver ;;                  (* observe(nativeElement) *)
  _ <- deref globeContainer ;;
  ret tt.

(** [value || fallback] on numbers: [0] and [NaN] are falsy. *)
Definition orElse (value fallback : number) : number :=
  match value with
  | Fin q => if Number.Qis0 q then fallback else value
  | NaN => fallback
  | _ => value
  end.

Definition handleResize (width height : number) : M unit :=
  c <- this camera ;; r <- this renderer ;;
  if negb (truthy c) || negb (truthy r) then ret tt else
  let actualHeight := orElse height 500 in
  _ <- deref camera ;;
  assign (set_camera (Some {| aspect := width / actualHeight |})) ;;
  _ <- deref camera ;;                          (* updateProjectionMatrix *)
  _ <- deref renderer ;;
  assign (set_renderer (Some {| width := width; height := actualHeight |})).

Definition animate : M unit :=
  b <- this isBrowser ;;
  if negb b then ret tt else
  id <- requestAnimationFrame ;;
  assign (set_animationFrameId (Some id)) ;;
  t <- this targetRotation ;; c <- this currentRotation ;;
  assign (set_currentRotation
    (Rotation.mk (Rotation.x c + (Rotation.x t - Rotation.x c) * 0.1) (Rotation.y c))) ;;
  t <- this targetRotation ;; c <- this currentRotation ;;
  assign (set_currentRotation
    (Rotation.mk (Rotation.x c) (Rotation.y c + (Rotation.y t - Rotation.y c) * 0.1))) ;;
  g <- this globe ;;
  when (truthy g)
    (g <- deref globe ;; c <- this currentRotation ;;
     assign (set_globe (Some
       {| rotation := Rotation.mk (Rotation.x (rotation g)) (Rotation.y c);
          pointsData := pointsData g |})) ;;
     g <- deref globe ;; c <- this currentRotation ;;
     assign (set_globe (Some
       {| rotation := Rotation.mk (Rotation.x c) (Rotation.y (rotation g));
          pointsData := pointsData g |}))) ;;
  ui <- this isUserInteracting ;;
  when (negb ui)
    (t <- this targetRotation ;;
     assign (set_targetRotation (Rotation.mk (Rotation.x t) (Rotation.y t + 0.001)))) ;;
  s <- this scene ;; c <- this camera ;; r <- this renderer ;;
  when (truthy s && truthy c && truthy r)
    (_ <- deref renderer ;; call Render).

(** [while (scene.children.length > 0) scene.remove(scene.children[0])]:
    one iteration per child. *)
Fixpoint removeAll (pending : list SceneObject) (s : Scene) : Scene :=
  match pending with
  | [] => s
  | _ :: rest =>
      match children s with
      | object :: _ => removeAll rest (removeObject object s)
      | [] => s
      end
  end.

Definition cleanup : M unit :=
  id <- this animationFrameId ;;
  match id with
  | Some i => cancelAnimationFrame i ;; assign (set_animationFrameId None)
  | None => ret tt
  end ;;
  o <- this resizeObserver ;;
  when (truthy o)
    (_ <- deref resizeObserver ;; call ObserverDisconnect ;;
     assign (set_resizeObserver None)) ;;
  g <- this globe ;;
  when (truthy g)
    (s <- this scene ;;
     match s with
     | Some s => assign (set_scene (Some (removeObject GlobeObject s)))
     | None => ret tt                           (* this.scene?.remove *)
     end ;;
     assign (set_globe None)) ;;
  r <- this renderer ;;
  when (truthy r)
    (_ <- deref renderer ;; call RendererDispose ;;
     _ <- deref renderer ;; call DomElementRemove ;;
     assign (set_renderer None)) ;;
  s <- this scene ;;
  when (truthy s)
    (s <- deref scene ;;
     assign (set_scene (Some (removeAll (children s) s))) ;;
     assign (set_scene None)) ;;
  assign (set_camera None) ;;
  assign (set_raycaster None).

(** [initializeGlobe] from its [await] on: [imported] tells whether the
    dynamic imports resolved.  Of the calls of the [try] block,
    [new THREE.WebGLRenderer] is the one that fails by its contract, where
    its canvas gets no WebGL context; scene and camera are assigned by
    then.  The other constructors, and [appendChild] of the new canvas,
    return. *)
Definition initializeGlobe (imported : bool) : M unit :=
  c <- this globeContainer ;;
  if negb (truthy c) then ret tt else
  tryCatch
    (when (negb imported) (throw ImportError) ;;
     container <- deref globeContainer ;;
     let width := clientWidth container in
     let height := orElse (clientHeight container) 500 in
     assign (set_scene (Some {| children := [] |})) ;;
     assign (set_camera (Some {| aspect := width / height |})) ;;
     when (negb (webglAvailable container)) (throw ContextError) ;;
     assign (set_renderer (Some {| width := width; height := height |})) ;;
     assign (set_globe (Some {| rotation := Rotation.mk 0 0; pointsData := [] |})) ;;
     s <- deref scene ;; assign (set_scene (Some (addObject GlobeObject s))) ;;
     s <- deref scene ;; assign (set_scene (Some (addObject AmbientLight s))) ;;
     s <- deref scene ;; assign (set_scene (Some (addObject DirectionalLight s))) ;;
     s <- deref scene ;; assign (set_scene (Some (addObject BackLight s))) ;;
     assign (set_raycaster (Some TheRaycaster)) ;;
     assign (set_mouse (Some (Vector2.mk 0 0))) ;;
     setupResizeObserver ;;
     data <- this emissions ;;
     when (0 <? List.length data)%nat (updateGlobeData data))
    (fun error =>
       call (ConsoleError "Failed to load Three.js dependencies:") ;;
       throw error).

(** [initializeGlobeAsync] from the [await] on. *)
Definition initializeGlobeAsync (imported : bool) : M unit :=
  tryCatch
    (initializeGlobe imported ;;
     setupEventListeners ;;
     animate ;;
     assign (set_loading false))
    (fun err =>
       call (ConsoleError "Failed to initialize globe:") ;;
       assign (set_error (Some "Failed to initialize 3D visualization")) ;;
       assign (set_loading false)).

Definition ngOnInit : M unit :=
  b <- this isBrowser ;;
  when (negb b) (assign (set_loading false)).

(** Up to the [await]: the rest runs when the imports settle. *)
Definition ngAfterViewInit : M unit :=
  b <- this isBrowser ;; c <- this globeContainer ;;
  if negb b || negb (truthy c) then ret tt else
  assign (set_acquisition InFlight).

Definition ngOnDestroy : M unit := cleanup.

(** The first [effect] of the constructor, run on a new [emissions]. *)
Definition emissionsEffect : M unit :=
  data <- this emissions ;;
  b <- this isBrowser ;; g <- this globe ;;
  when (b && truthy g && (0 <? List.length data)%nat) (updateGlobeData data).

(** The second [effect], run on a new [selectedCountry]. *)
Definition selectedCountryEffect : M unit :=
  country <- this selectedCountry ;;
  b <- this isBrowser ;;
  match country with
  | Some c => when (b && truthyString country) (focusOnCountry c)
  | None => ret tt
  end.

(** ** The host's events *)

Inductive Event :=
| NgOnInit
| NgAfterViewInit
| ImportsResolved
| ImportsRejected
| AnimationFrame
| MouseMove (event : MouseEvent)
| MouseDown (now : Z)
| MouseUp (now : Z)
| TouchStart (touches : nat) (now : Z)
| TouchMove
| Resize (width height : number)
| EmissionsChange (data : list Emission.t)
| SelectedCountryChange (country : option string)
| NgOnDestroy.

Definition isInFlight (a : Acquisition) : bool :=
  match a with InFlight => true | _ => false end.

Definition isNotStarted (a : Acquisition) : bool :=
  match a with NotStarted => true | _ => false end.

(** What the host runs for an event.  The view is initialised once; the
    imports settle once, and only when awaited; a frame fires the oldest
    pending callback, if any; the resize observer calls back while it is
    connected. *)
Definition dispatch (e : Event) : M unit :=
  match e with
  | NgOnInit => ngOnInit
  | NgAfterViewInit =>
      a <- this acquisition ;;
      when (isNotStarted a) ngAfterViewInit
  | ImportsResolved =>
      a <- this acquisition ;;
      when (isInFlight a) (assign (set_acquisition Settled) ;; initializeGlobeAsync true)
  | ImportsRejected =>
      a <- this acquisition ;;
      when (isInFlight a) (assign (set_acquisition Settled) ;; initializeGlobeAsync false)
  | AnimationFrame =>
      p <- this pendingFrames ;;
      match p with
      | _ :: rest => assign (set_pendingFrames rest) ;; animate
      | [] => ret tt
      end
  | MouseMove event => onMouseMove event
  | MouseDown now => onMouseDown now
  | MouseUp now => onMouseUp now
  | TouchStart touches now => onTouchStart touches now
  | TouchMove => onTouchMove
  | Resize width height =>
      o <- this resizeObserver ;;
      when (truthy o) (handleResize width height)
  | EmissionsChange data => assign (set_emissions data) ;; emissionsEffect
  | SelectedCountryChange country =>
      assign (set_selectedCountry country) ;; selectedCountryEffect
  | NgOnDestroy => ngOnDestroy
  end.

Definition step (e : Event) (w : World.t) : result World.t :=
  match dispatch e w with
  | Ok (_, w') => Ok w'
  | Throw err w' => Throw err w'
  end.

Fixpoint run (events : list Event) (w : World.t) : result World.t :=
  match events with
  | [] => Ok w
  | e :: rest =>
      match step e w with
      | Ok w' => run rest w'
      | Throw err w' => Throw err w'
      end
  end.

(** ** Observations on the log *)

Definition isRequest (c : Call) : bool :=
  match c with RequestAnimationFrame _ => true | _ => false end.

Definition isEmit (c : Call) : bool :=
  match c with EmitCountrySelected _ | EmitCountryHovered _ => true | _ => false end.

Definition isClickPath (c : Call) : bool :=
  match c with HandleCountryClick => true | _ => false end.

Definition isRender (c : Call) : bool :=
  match c with Render => true | _ => false end.

(** Render ticks scheduled so far. *)
Definition scheduledTicks (w : World.t) : nat :=
  List.length (filter isRequest (calls w)).

(** Draw calls issued so far. *)
Definition drawCalls (w : World.t) : nat :=
  List.length (filter isRender (calls w)).

(** Entries into the click path so far. *)
Definition clicks (w : World.t) : nat :=
  List.length (filter isClickPath (calls w)).

(** Selection and hover events emitted so far. *)
Definition emitted (w : World.t) : list Call :=
  filter isEmit (calls w).

End GlobeChartComponent.

Import GlobeChartComponent.

(** A total as the data layer promises it: finite and not negative. *)
Definition nonNegative (a : number) : Prop :=
  match a with
  | Fin q => (0 <= q)%Q
  | _ => False
  end.

Definition wellFormed (countryData : JsMap.t Rollup.t) : Prop :=
  Forall (fun r => nonNegative (Rollup.totalEmissions r)) (JsMap.values countryData).

(** ** States the host can bring about *)

(** The pending frame callbacks are none, or the one whose id the
    component holds. *)
Definition framesTracked (w : World.t) : Prop :=
  World.pendingFrames w = [] \/
  exists id, World.animationFrameId w = Some id /\ World.pendingFrames w = [id].

(** What holds of every state the host can bring about: the pointer vector
    exists whenever the renderer does; the pending frames are tracked, and
    there are none before the loop has started; nothing is hovered and
    nothing was emitted; an awaited initialisation has its container. *)
Record Inv (w : World.t) : Prop := {
  inv_mouse : World.renderer w <> None -> World.mouse w <> None;
  inv_frames : framesTracked w;
  inv_unsettled : World.acquisition w <> Settled -> World.pendingFrames w = [];
  inv_hover : World.hoveredCountry w = None;
  inv_emitted : emitted w = [];
  inv_container : World.acquisition w = InFlight -> World.globeContainer w <> None
}.

Definition reachable (w : World.t) : Prop :=
  exists isBrowser globeContainer events,
    run events (create isBrowser globeContainer) = Ok w.

(** [n] ticks of the render loop, one after the other. *)
Fixpoint ticks (n : nat) (w : World.t) : result World.t :=
  match n with
  | O => Ok w
  | S k =>
      match animate w with
      | Ok (_, w') => ticks k w'
      | Throw err w' => Throw err w'
      end
  end.

(** ** Inputs used below *)

Definition someContainer : Container :=
  {| clientWidth := 800; clientHeight := 600; webglAvailable := true |}.

Definition pointerAt (movementX movementY : Q) (buttons : nat) : MouseEvent :=
  {| clientX := 400; clientY := 300;
     movementX := movementX; movementY := movementY; buttons := buttons;
     rectLeft := 0; rectTop := 0; rectWidth := 800; rectHeight := 600;
     intersects := 0 |}.

(** An initialised globe. *)
Definition started : list Event := [NgOnInit; NgAfterViewInit; ImportsResolved].

(** The scenario of the specification: press at [t = 0], a movement of
    [(10, 0)] with the primary button held, release at [t = 50]. *)
Definition dragAndRelease : list Event :=
  [MouseDown 0; MouseMove (pointerAt 10 0 1); MouseUp 50].

(** The view initialised, the imports awaited. *)
Definition loadingEvents : list Event := [NgOnInit; NgAfterViewInit].

(** The imports resolve after a teardown, and three frames follow. *)
Definition lateResolution : list Event :=
  [ImportsResolved; AnimationFrame; AnimationFrame; AnimationFrame].

Definition record (country : string) (emissions : Q) : Emission.t :=
  Emission.mk 1 2024 (Fin emissions) country CO2 ENERGY "2024-01-01T00:00:00Z".

(** Four records of three country codes. *)
Definition sampleRecords : list Emission.t :=
  [record "US" 5; record "ZZ" 3; record "US" 5; record "fr" 1].

(** A record with amount [0], the form's default amount. *)
Definition zeroRecord : Emission.t := record "US" 0.

(** ** More of the data path: what feeds the globe

    [uniqueCountries] of [store/emissions.store.ts] and [filteredEmissions]
    of the globe dashboard, which holds the countries offered for selection
    and the records left by a selection. *)

(** [new Set(values)] read back with [Array.from]: the distinct values, in
    the order in which each first occurs. *)
Definition setAdd (seen : list string) (value : string) : list string :=
  if existsb (String.eqb value) seen then seen else seen ++ [value].

Definition setFrom (values : list string) : list string :=
  fold_left setAdd values [].

(** [Array.prototype.sort()] on strings: ascending by code units. *)
Fixpoint insertSorted (s : string) (sorted : list string) : list string :=
  match sorted with
  | [] => [s]
  | h :: rest => if String.leb s h then s :: sorted else h :: insertSorted s rest
  end.

Definition sortStrings (l : list string) : list string :=
  fold_right insertSorted [] l.

Definition uniqueCountries (emissions : list Emission.t) : list string :=
  let countries := setFrom (map Emission.country emissions) in
  sortStrings countries.

Definition filteredEmissions (selectedCountry : option string)
    (emissions : list Emission.t) : list Emission.t :=
  match selectedCountry with
  | Some country =>
      if negb (truthyString selectedCountry) then emissions
      else filter (fun e => String.eqb (Emission.country e) country) emissions
  | None => emissions
  end.

(** ** Measures used in the statements below *)

(** The four colours, from low to high. *)
Definition colorRank (color : string) : nat :=
  if String.eqb color "#00ff00" then 0
  else if String.eqb color "#ffff00" then 1
  else if String.eqb color "#ff8800" then 2
  else 3.

(** ** The life of a component *)

(** Every graphics handle is [null]. *)
Definition allNull (w : World.t) : Prop :=
  World.scene w = None /\ World.camera w = None /\ World.renderer w = None /\
  World.globe w = None /\ World.raycaster w = None /\
  World.resizeObserver w = None /\ World.animationFrameId w = None.

(** What holds of every state the host can bring about, beyond [Inv]: where
    the component stands in its life decides what it holds and what it has
    done. *)
Record Lifecycle (w : World.t) : Prop := {
  lc_server : World.isBrowser w = false -> World.acquisition w = NotStarted;
  lc_started : World.acquisition w <> NotStarted ->
               World.isBrowser w = true /\ World.globeContainer w <> None;
  lc_early : World.acquisition w <> Settled ->
             allNull w /\ World.mouse w = None /\ World.error w = None /\
             filter (fun c => negb (isClickPath c)) (World.calls w) = [];
  lc_settled : World.acquisition w = Settled -> World.loading w = false;
  lc_error : World.error w <> None ->
             World.renderer w = None /\ World.globe w = None /\
             World.raycaster w = None /\ World.resizeObserver w = None /\
             World.animationFrameId w = None /\
             filter isRequest (World.calls w) = [];
  lc_running : World.pendingFrames w <> [] ->
               World.scene w <> None /\ World.camera w <> None /\
               World.renderer w <> None /\ World.globe w <> None;
  lc_draws : (drawCalls w <= scheduledTicks w)%nat;
  lc_data : forall g, World.globe w = Some g -> World.emissions w <> [] ->
            pointsData g =
            transformToGlobePoints (aggregateEmissionsByCountry (World.emissions w))
}.

Definition isListener (c : Call) : bool :=
  match c with AddEventListener _ => true | _ => false end.

(** The view initialised in a browser, the imports still awaited. *)
Definition loadingState : World.t :=
  World.set_acquisition InFlight (create true (Some someContainer)).

(** A pitch between the poles: finite and within [[-PI/2, PI/2]]. *)
Definition betweenPoles (a : number) : Prop :=
  exists q : Q, a = Fin q /\ (- (Number.PI_value / 2) <= q)%Q /\
                (q <= Number.PI_value / 2)%Q.

Definition notNaN (a : number) : Prop := a <> NaN.

(** An event whose pointer movement, if it has one, is a number. *)
Definition steady (e : Event) : Prop :=
  match e with
  | MouseMove event => notNaN (movementY event)
  | _ => True
  end.

(** The pitch of the target, of the current rotation and of the globe. *)
Definition pitchesBetweenPoles (w : World.t) : Prop :=
  betweenPoles (Rotation.x (World.targetRotation w)) /\
  betweenPoles (Rotation.x (World.currentRotation w)) /\
  (forall g, World.globe w = Some g -> betweenPoles (Rotation.x (rotation g))).

(** A browser component with the globe started and the sample records
    shown. *)
Definition runningState : World.t :=
  match run (started ++ [EmissionsChange sampleRecords])
            (create true (Some someContainer)) with
  | Ok w => w
  | Throw _ _ => create true (Some someContainer)
  end.

Definition isConsoleError (c : Call) : bool :=
  match c with ConsoleError _ => true | _ => false end.

(** A container in a browser that gives no WebGL context, and its view
    initialised, the imports still awaited. *)
Definition plainContainer : Container :=
  {| clientWidth := 800; clientHeight := 600; webglAvailable := false |}.

Definition loadingWithoutWebGL : World.t :=
  World.set_acquisition InFlight (create true (Some plainContainer)).

(** The yaw after [n] idle ticks: [0.001] added [n] times, one addition
    per tick. *)
Definition drifted (n : nat) (yaw : number) : number :=
  Nat.iter n (fun y => y + 0.001) yaw.

(** * Properties *)

Local Open Scope list_scope.

(** ** Insertion-ordered maps *)

Section JsMapFacts.
Context {V : Type}.
Implicit Types (m : JsMap.t V) (k c : string) (v : V).

Lemma get_set_same k v m : JsMap.get k (JsMap.set k v m) = Some v.
Proof.
  induction m as [|[k' v'] m IH]; simpl.
  - now rewrite String.eqb_refl.
  - destruct (String.eqb k k') eqn:E; simpl; rewrite E; auto.
Qed.

Lemma get_set_other k c v m :
  c <> k -> JsMap.get c (JsMap.set k v m) = JsMap.get c m.
Proof.
  intros Hne. induction m as [|[k' v'] m IH]; simpl.
  - apply String.eqb_neq in Hne. now rewrite Hne.
  - destruct (String.eqb k k') eqn:E; simpl.
    + apply String.eqb_eq in E. subst k'.
      apply String.eqb_neq in Hne. now rewrite Hne.
    + now rewrite IH.
Qed.

Lemma get_None_keys k m : JsMap.get k m = None <-> ~ In k (JsMap.keys m).
Proof.
  induction m as [|[k' v'] m IH]; simpl.
  - tauto.
  - destruct (String.eqb k k') eqn:E.
    + apply String.eqb_eq in E. subst. split; [discriminate | tauto].
    + apply String.eqb_neq in E. rewrite IH. split.
      * intros H [H1 | H1]; [congruence | tauto].
      * tauto.
Qed.

Lemma keys_set_present k v m :
  In k (JsMap.keys m) -> JsMap.keys (JsMap.set k v m) = JsMap.keys m.
Proof.
  induction m as [|[k' v'] m IH]; simpl; [tauto|].
  intros Hin. destruct (String.eqb k k') eqn:E; simpl; [reflexivity|].
  apply String.eqb_neq in E. f_equal. apply IH. destruct Hin; congruence.
Qed.

Lemma keys_set_absent k v m :
  ~ In k (JsMap.keys m) -> JsMap.keys (JsMap.set k v m) = JsMap.keys m ++ [k].
Proof.
  induction m as [|[k' v'] m IH]; simpl; [reflexivity|].
  intros Hin. destruct (String.eqb k k') eqn:E; simpl.
  - apply String.eqb_eq in E. subst. tauto.
  - f_equal. apply IH. tauto.
Qed.

Lemma keys_set_In k c v m :
  In c (JsMap.keys (JsMap.set k v m)) <-> c = k \/ In c (JsMap.keys m).
Proof.
  destruct (in_dec string_dec k (JsMap.keys m)) as [Hin | Hout].
  - rewrite keys_set_present by assumption. split; [tauto|].
    intros [-> | H]; assumption.
  - rewrite keys_set_absent by assumption. rewrite in_app_iff. simpl.
    split; intros H; intuition congruence.
Qed.

Lemma keys_set_NoDup k v m :
  NoDup (JsMap.keys m) -> NoDup (JsMap.keys (JsMap.set k v m)).
Proof.
  intros Hnd. destruct (in_dec string_dec k (JsMap.keys m)) as [Hin | Hout].
  - now rewrite keys_set_present.
  - rewrite keys_set_absent by assumption.
    apply NoDup_app; [assumption | repeat constructor; simpl; tauto |].
    intros a Ha [<- | []]. contradiction.
Qed.

Lemma values_length m : List.length (JsMap.values m) = List.length (JsMap.keys m).
Proof. unfold JsMap.values, JsMap.keys. now rewrite !length_map. Qed.

End JsMapFacts.

(** ** Aggregation *)

Lemma aggregateStep_keys_In m e c :
  In c (JsMap.keys (aggregateStep m e)) <->
  c = Emission.country e \/ In c (JsMap.keys m).
Proof.
  unfold aggregateStep.
  destruct (JsMap.get (Emission.country e) m); apply keys_set_In.
Qed.

Lemma aggregateStep_keys_NoDup m e :
  NoDup (JsMap.keys m) -> NoDup (JsMap.keys (aggregateStep m e)).
Proof.
  unfold aggregateStep.
  destruct (JsMap.get (Emission.country e) m); apply keys_set_NoDup.
Qed.

Lemma aggregate_keys l : forall m,
  NoDup (JsMap.keys m) ->
  NoDup (JsMap.keys (fold_left aggregateStep l m)) /\
  forall c, In c (JsMap.keys (fold_left aggregateStep l m)) <->
            In c (JsMap.keys m) \/ In c (map Emission.country l).
Proof.
  induction l as [|e l IH]; intros m Hnd; simpl.
  - split; [assumption | intros c; tauto].
  - destruct (IH (aggregateStep m e) (aggregateStep_keys_NoDup m e Hnd)) as [H1 H2].
    split; [assumption|]. intros c. rewrite H2, aggregateStep_keys_In.
    intuition congruence.
Qed.

Lemma aggregateStep_get_other m e c :
  Emission.country e <> c ->
  JsMap.get c (aggregateStep m e) = JsMap.get c m.
Proof.
  intros Hne. unfold aggregateStep.
  destruct (JsMap.get (Emission.country e) m); apply get_set_other; congruence.
Qed.

(** The entry of [c] after folding [l] into a map [m]: the entry [m] holds
    for [c] extended by the records of [c] in list order, or a fresh entry
    started by the first such record. *)
Lemma aggregate_get l : forall m c,
  JsMap.get c (fold_left aggregateStep l m) =
  match JsMap.get c m with
  | Some r =>
      Some (Rollup.mk (Rollup.country r)
              (fold_left Number.add (map Emission.emissions (recordsOf c l))
                 (Rollup.totalEmissions r))
              (Rollup.count r + List.length (recordsOf c l)))
  | None =>
      match recordsOf c l with
      | [] => None
      | e :: rest =>
          Some (Rollup.mk c
                  (fold_left Number.add (map Emission.emissions rest)
                     (Emission.emissions e))
                  (1 + List.length rest))
      end
  end.
Proof.
  induction l as [|e l IH]; intros m c.
  - simpl. destruct (JsMap.get c m) as [[k t n]|]; [|reflexivity].
    simpl. now rewrite Nat.add_0_r.
  - cbn [fold_left]. rewrite IH. unfold recordsOf. cbn [filter].
    destruct (String.eqb (Emission.country e) c) eqn:E.
    + apply String.eqb_eq in E. subst c. unfold aggregateStep.
      destruct (JsMap.get (Emission.country e) m) as [r|] eqn:G;
        rewrite get_set_same; cbn; f_equal; f_equal; lia.
    + apply String.eqb_neq in E. now rewrite aggregateStep_get_other.
Qed.

(** On finite amounts [sumOf] is the sum of the rationals. *)
Lemma sumOf_finite (qs : list Q) :
  sumOf (map Fin qs) =n= Fin (fold_right Qplus 0%Q qs).
Proof.
  assert (Hfold : forall l a,
            fold_left Number.add (map Fin l) (Fin a) = Fin (fold_left Qplus l a)).
  { induction l as [|b l IH]; intros a; simpl; [reflexivity | apply IH]. }
  assert (Hsum : forall l a, (fold_left Qplus l a == a + fold_right Qplus 0 l)%Q).
  { induction l as [|b l IH]; intros a; simpl; [ring|]. rewrite IH. ring. }
  destruct qs as [|a qs]; simpl; [reflexivity|].
  rewrite Hfold. simpl. apply Hsum.
Qed.

(** C3.  The aggregation has exactly one rollup per country code of the
    input (the keys are distinct, and are the codes that occur); the rollup
    of a code carries the code, the sum of the [emissions] of its records
    in input order, and their number; the empty list gives the empty map.
    The result depends on the input list alone, which is left as it was. *)
Theorem aggregateEmissionsByCountry_rollups :
  forall emissions : list Emission.t,
    NoDup (JsMap.keys (aggregateEmissionsByCountry emissions)) /\
    (forall c, In c (JsMap.keys (aggregateEmissionsByCountry emissions)) <->
               In c (map Emission.country emissions)) /\
    (forall c, In c (map Emission.country emissions) ->
               JsMap.get c (aggregateEmissionsByCountry emissions) =
               Some (Rollup.mk c (totalFor c emissions) (countFor c emissions))) /\
    (forall c, ~ In c (map Emission.country emissions) ->
               JsMap.get c (aggregateEmissionsByCountry emissions) = None) /\
    aggregateEmissionsByCountry [] = JsMap.empty.
Proof.
  intros emissions. unfold aggregateEmissionsByCountry.
  destruct (aggregate_keys emissions JsMap.empty) as [Hnd Hkeys]; [constructor|].
  assert (Hrec : forall c, In c (map Emission.country emissions) <->
                           recordsOf c emissions <> []).
  { intros c. unfold recordsOf. rewrite in_map_iff. split.
    - intros (e & He & Hin) Hnil.
      assert (Hf : In e (filter (fun e => String.eqb (Emission.country e) c) emissions)).
      { apply filter_In. split; [assumption|]. now apply String.eqb_eq. }
      rewrite Hnil in Hf. destruct Hf.
    - destruct (filter _ emissions) as [|e rest] eqn:F; [congruence|]. intros _.
      assert (Hf : In e (filter (fun e => String.eqb (Emission.country e) c) emissions))
        by (rewrite F; now left).
      apply filter_In in Hf. destruct Hf as [Hin He]. apply String.eqb_eq in He.
      now exists e. }
  repeat split.
  - assumption.
  - intros H. apply Hkeys in H. simpl in H. tauto.
  - intros H. apply Hkeys. now right.
  - intros c Hin. rewrite aggregate_get. simpl.
    unfold totalFor, countFor, sumOf.
    apply Hrec in Hin. destruct (recordsOf c emissions) as [|e rest]; [congruence|].
    reflexivity.
  - intros c Hout. rewrite aggregate_get. simpl.
    destruct (recordsOf c emissions) as [|e rest] eqn:F; [reflexivity|].
    exfalso. apply Hout, Hrec. congruence.
Qed.

Example aggregateEmissionsByCountry_sample :
  aggregateEmissionsByCountry sampleRecords =
  [("US", Rollup.mk "US" (Fin 10) 2);
   ("ZZ", Rollup.mk "ZZ" (Fin 3) 1);
   ("fr", Rollup.mk "fr" (Fin 1) 1)].
Proof. reflexivity. Qed.

(** ** Comparisons of finite numbers *)

Lemma Qltb_lt (a b : Q) : Number.Qltb a b = true <-> (a < b)%Q.
Proof.
  unfold Number.Qltb. rewrite negb_true_iff, <- not_true_iff_false, Qle_bool_iff.
  split; [apply Qnot_le_lt | apply Qlt_not_le].
Qed.

Lemma Qltb_ge (a b : Q) : Number.Qltb a b = false <-> (b <= a)%Q.
Proof.
  unfold Number.Qltb. rewrite negb_false_iff. apply Qle_bool_iff.
Qed.

Lemma Qis0_false (a : Q) : Number.Qis0 a = false <-> ~ (a == 0)%Q.
Proof.
  unfold Number.Qis0. rewrite <- not_true_iff_false, Qeq_bool_iff. tauto.
Qed.

(** ** Colour bands *)

(** C5.  On a normalized value in [[0,1]] the colour is the four-band step
    function: green on [[0,0.25)], yellow on [[0.25,0.5)], orange on
    [[0.5,0.75)], red on [[0.75,1]]; each band contains its lower bound and
    not its upper bound, the last one is closed.  The seven values of the
    specification fall as it says. *)
Theorem getColorForEmissions_bands :
  forall q : Q,
    (0 <= q)%Q -> (q <= 1)%Q ->
    ((q < 0.25)%Q -> getColorForEmissions (Fin q) = "#00ff00") /\
    ((0.25 <= q)%Q -> (q < 0.5)%Q -> getColorForEmissions (Fin q) = "#ffff00") /\
    ((0.5 <= q)%Q -> (q < 0.75)%Q -> getColorForEmissions (Fin q) = "#ff8800") /\
    ((0.75 <= q)%Q -> getColorForEmissions (Fin q) = "#ff0000") /\
    map getColorForEmissions
      [Fin 0.24; Fin 0.25; Fin 0.49; Fin 0.50; Fin 0.74; Fin 0.75; Fin 1.0] =
      ["#00ff00"; "#ffff00"; "#ffff00"; "#ff8800"; "#ff8800"; "#ff0000"; "#ff0000"].
Proof.
  intros q _ _. unfold getColorForEmissions. cbn [Number.lt].
  repeat split; intros.
  - assert (E : Number.Qltb q 0.25 = true) by now apply Qltb_lt.
    now rewrite E.
  - assert (E1 : Number.Qltb q 0.25 = false) by now apply Qltb_ge.
    assert (E2 : Number.Qltb q 0.5 = true) by now apply Qltb_lt.
    now rewrite E1, E2.
  - assert (E1 : Number.Qltb q 0.25 = false) by (apply Qltb_ge; lra).
    assert (E2 : Number.Qltb q 0.5 = false) by now apply Qltb_ge.
    assert (E3 : Number.Qltb q 0.75 = true) by now apply Qltb_lt.
    now rewrite E1, E2, E3.
  - assert (E1 : Number.Qltb q 0.25 = false) by (apply Qltb_ge; lra).
    assert (E2 : Number.Qltb q 0.5 = false) by (apply Qltb_ge; lra).
    assert (E3 : Number.Qltb q 0.75 = false) by now apply Qltb_ge.
    now rewrite E1, E2, E3.
Qed.

Lemma getColorForEmissions_bands_witness :
  getColorForEmissions (Fin 0.6) = "#ff8800".
Proof.
  refine (proj1 (proj2 (proj2 (getColorForEmissions_bands 0.6 _ _))) _ _);
    vm_compute; congruence.
Defined.

(** ** Coordinate lookup *)

Lemma COUNTRY_COORDINATES_keys_NoDup : NoDup (JsMap.keys COUNTRY_COORDINATES).
Proof.
  apply (NoDup_count_occ' string_dec). intros k Hin.
  repeat (destruct Hin as [<- | Hin]; [vm_compute; reflexivity|]). destruct Hin.
Qed.

Lemma transformToGlobePoints_countries (countryData : JsMap.t Rollup.t) :
  map GlobePointData.country (transformToGlobePoints countryData) =
  map Rollup.country (JsMap.values countryData).
Proof.
  unfold transformToGlobePoints. rewrite map_map. reflexivity.
Qed.

(** C6.  The coordinate lookup is a total function of the code: when the
    uppercased code is a key of the table the result is that entry, and
    otherwise it is latitude 0, longitude 0 and the code itself as name, as
    for ["ZZ"].  No rollup is dropped by the encoder: the points are the
    rollups' countries, one for one and in order. *)
Theorem getCountryCoordinates_total :
  forall countryCode : string,
    (forall c, JsMap.get (toUpperCase countryCode) COUNTRY_COORDINATES = Some c ->
               getCountryCoordinates countryCode = c) /\
    (JsMap.get (toUpperCase countryCode) COUNTRY_COORDINATES = None ->
     getCountryCoordinates countryCode =
     CountryCoordinate.mk (Fin 0) (Fin 0) countryCode) /\
    getCountryCoordinates "ZZ" = CountryCoordinate.mk (Fin 0) (Fin 0) "ZZ" /\
    (forall countryData : JsMap.t Rollup.t,
       map GlobePointData.country (transformToGlobePoints countryData) =
       map Rollup.country (JsMap.values countryData) /\
       List.length (transformToGlobePoints countryData) =
       List.length (JsMap.keys countryData)).
Proof.
  intros countryCode. unfold getCountryCoordinates, propertyOf.
  repeat split.
  - intros c H. now rewrite H.
  - intros H. now rewrite H.
  - apply transformToGlobePoints_countries.
  - unfold transformToGlobePoints. now rewrite length_map, values_length.
Qed.

Example getCountryCoordinates_lowercase :
  getCountryCoordinates "us" = mkCoord 37.0902 (-95.7129) "United States".
Proof. reflexivity. Qed.

(** ** Normalization and size *)

(** The running maximum over finite, non-negative totals, started at a
    finite non-negative value, ends at a finite bound of the start and of
    every total, which is the start or one of the totals. *)
Lemma fold_maxStep_bound (l : list Rollup.t) : forall a : Q,
  (0 <= a)%Q ->
  Forall (fun r => nonNegative (Rollup.totalEmissions r)) l ->
  exists M : Q,
    fold_left maxStep l (Fin a) = Fin M /\ (a <= M)%Q /\
    (forall r q, In r l -> Rollup.totalEmissions r = Fin q -> (q <= M)%Q) /\
    (M = a \/ exists r, In r l /\ Rollup.totalEmissions r = Fin M).
Proof.
  induction l as [|r l IH]; intros a Ha Hwf; simpl.
  - exists a. repeat split; [lra | intros r q [] | now left].
  - inversion Hwf as [|r' l' Hr Hl]; subst.
    unfold maxStep at 2. unfold Number.gt.
    destruct (Rollup.totalEmissions r) as [q| | |] eqn:Et; try contradiction.
    simpl in Hr. cbn [Number.lt].
    destruct (Number.Qltb a q) eqn:E.
    + apply Qltb_lt in E.
      destruct (IH q Hr Hl) as (M & HM & Hle & Hub & Hwit).
      exists M. repeat split; [assumption | lra | | ].
      * intros r0 q0 [<- | Hin] Hq0; [| eauto].
        rewrite Et in Hq0. injection Hq0 as <-. assumption.
      * right. destruct Hwit as [-> | (r0 & Hin & Hr0)].
        -- exists r. split; [now left | assumption].
        -- exists r0. split; [now right | assumption].
    + apply Qltb_ge in E.
      destruct (IH a Ha Hl) as (M & HM & Hle & Hub & Hwit).
      exists M. repeat split; [assumption | assumption | | ].
      * intros r0 q0 [<- | Hin] Hq0; [| eauto].
        rewrite Et in Hq0. injection Hq0 as <-. lra.
      * destruct Hwit as [-> | (r0 & Hin & Hr0)]; [now left | right].
        exists r0. split; [now right | assumption].
Qed.

(** Where some total is positive, the encoder normalizes into [[0,1]] and
    sizes into [[0.05,0.35]], and a larger total gets a size at least as
    large. *)
Lemma encoder_ranges (countryData : JsMap.t Rollup.t) :
  wellFormed countryData ->
  (exists r, In r (JsMap.values countryData) /\
             Number.lt (Fin 0) (Rollup.totalEmissions r) = true) ->
  exists M : Q,
    maxEmissionsOf countryData = Fin M /\ (0 < M)%Q /\
    (forall r, In r (JsMap.values countryData) ->
       exists q : Q,
         Rollup.totalEmissions r = Fin q /\
         normalizedEmissions (Fin M) r = Fin (q / M) /\
         (0 <= q / M)%Q /\ (q / M <= 1)%Q /\
         sizeOf (normalizedEmissions (Fin M) r) = Fin (0.05 + q / M * 0.3) /\
         (0.05 <= 0.05 + q / M * 0.3)%Q /\ (0.05 + q / M * 0.3 <= 0.35)%Q) /\
    (forall r1 r2,
       In r1 (JsMap.values countryData) -> In r2 (JsMap.values countryData) ->
       Number.le (Rollup.totalEmissions r1) (Rollup.totalEmissions r2) = true ->
       Number.le (sizeOf (normalizedEmissions (Fin M) r1))
                 (sizeOf (normalizedEmissions (Fin M) r2)) = true).
Proof.
  intros Hwf (r0 & Hin0 & Hpos). unfold maxEmissionsOf.
  destruct (fold_maxStep_bound (JsMap.values countryData) 0 (Qle_refl 0) Hwf)
    as (M & HM & Hle & Hub & _).
  assert (HposM : (0 < M)%Q).
  { destruct (Rollup.totalEmissions r0) as [q0| | |] eqn:E0; try discriminate.
    - cbn in Hpos. apply Qltb_lt in Hpos. specialize (Hub r0 q0 Hin0 E0). lra.
    - red in Hwf. rewrite Forall_forall in Hwf. specialize (Hwf r0 Hin0).
      now rewrite E0 in Hwf. }
  assert (Hnz : Number.Qis0 M = false) by (apply Qis0_false; lra).
  assert (Hfin : forall r, In r (JsMap.values countryData) ->
            exists q, Rollup.totalEmissions r = Fin q /\ (0 <= q)%Q /\ (q <= M)%Q).
  { intros r Hin. red in Hwf. rewrite Forall_forall in Hwf. specialize (Hwf r Hin).
    destruct (Rollup.totalEmissions r) as [q| | |] eqn:E; try contradiction.
    exists q. repeat split; [assumption | eauto]. }
  exists M. split; [assumption|]. split; [assumption|]. split.
  - intros r Hin. destruct (Hfin r Hin) as (q & Eq & Hq0 & HqM).
    exists q. unfold normalizedEmissions, sizeOf. rewrite Eq. cbn. rewrite Hnz. cbn.
    assert (H0 : (0 <= q / M)%Q) by (apply Qle_shift_div_l; lra).
    assert (H1 : (q / M <= 1)%Q) by (apply Qle_shift_div_r; lra).
    repeat split; try assumption; lra.
  - intros r1 r2 Hin1 Hin2 Hle12.
    destruct (Hfin r1 Hin1) as (q1 & E1 & _ & _).
    destruct (Hfin r2 Hin2) as (q2 & E2 & _ & _).
    unfold normalizedEmissions, sizeOf. rewrite E1, E2 in *. cbn in *.
    rewrite Hnz. cbn. apply Qle_bool_iff in Hle12. apply Qle_bool_iff.
    assert (Hd : (q1 / M <= q2 / M)%Q).
    { unfold Qdiv. apply Qmult_le_compat_r; [assumption|].
      apply Qlt_le_weak, Qinv_lt_0_compat. assumption. }
    lra.
Qed.

(** Where every total is zero the maximum stays [0] and every normalized
    value is [0 / 0]. *)
Lemma all_zero_batch_is_NaN (countryData : JsMap.t Rollup.t) :
  Forall (fun r => exists q, Rollup.totalEmissions r = Fin q /\ (q == 0)%Q)
         (JsMap.values countryData) ->
  maxEmissionsOf countryData = Fin 0 /\
  Forall (fun r => normalizedEmissions (maxEmissionsOf countryData) r = NaN)
         (JsMap.values countryData).
Proof.
  intros Hz. unfold maxEmissionsOf.
  assert (Hmax : fold_left maxStep (JsMap.values countryData) (Fin 0) = Fin 0).
  { induction Hz as [|r l (q & Eq & Hq) _ IH]; simpl; [reflexivity|].
    unfold maxStep at 2. rewrite Eq. cbn.
    assert (E : Number.Qltb 0 q = false) by (apply Qltb_ge; lra).
    now rewrite E. }
  split; [assumption|]. rewrite Hmax.
  apply Forall_impl with (2 := Hz). intros r (q & Eq & Hq).
  unfold normalizedEmissions. rewrite Eq. cbn.
  assert (E : Number.Qis0 q = true) by now apply Qeq_bool_iff.
  now rewrite E.
Qed.

Example transformToGlobePoints_sample :
  let points := transformToGlobePoints (aggregateEmissionsByCountry sampleRecords) in
  map GlobePointData.country points = ["US"; "ZZ"; "fr"] /\
  map GlobePointData.color points = ["#ff0000"; "#ffff00"; "#00ff00"] /\
  Forall2 Number.same (map GlobePointData.size points) [Fin 0.35; Fin 0.14; Fin 0.08] /\
  map (fun p => Label.name (GlobePointData.label p)) points =
    ["United States"; "ZZ"; "France"].
Proof.
  vm_compute. repeat split. repeat constructor.
Qed.

(** C1.  On the batch of one record whose amount is [0] the maximum total
    is [0] and the division is [0 / 0]: the normalized value of the point
    is NaN, not [0], and is not within [[0,1]]. *)
Theorem normalized_of_zero_batch :
  let countryData := aggregateEmissionsByCountry [zeroRecord] in
  JsMap.values countryData = [Rollup.mk "US" (Fin 0) 1] /\
  maxEmissionsOf countryData = Fin 0 /\
  map (normalizedEmissions (maxEmissionsOf countryData)) (JsMap.values countryData)
    = [NaN] /\
  Number.le (Fin 0) NaN = false /\ Number.le NaN (Fin 1) = false.
Proof. vm_compute. repeat split. Qed.

(** C4.  On the same batch the size of the point is NaN, outside
    [[0.05,0.35]], and the point is coloured red; a size is not even
    at least as large as itself. *)
Theorem size_of_zero_batch :
  let points := transformToGlobePoints (aggregateEmissionsByCountry [zeroRecord]) in
  map GlobePointData.size points = [NaN] /\
  map GlobePointData.color points = ["#ff0000"] /\
  forallb (fun p => Number.le (Fin 0.05) (GlobePointData.size p)) points = false /\
  forallb (fun p => Number.le (GlobePointData.size p) (Fin 0.35)) points = false /\
  forallb (fun p => Number.le (GlobePointData.size p) (GlobePointData.size p)) points
    = false.
Proof. vm_compute. repeat split. Qed.

(** ** Running the handlers on an arbitrary state *)

Ltac unfold_monad :=
  cbv [bind ret this assign deref call when throw tryCatch truthy
       requestAnimationFrame cancelAnimationFrame].

Ltac unfold_world :=
  cbv [World.isBrowser World.globeContainer World.emissions World.selectedCountry
       World.loading World.error World.hoveredCountry World.scene World.camera
       World.renderer World.globe World.animationFrameId World.resizeObserver
       World.raycaster World.mouse World.isUserInteracting World.mouseDownTime
       World.targetRotation World.currentRotation World.acquisition
       World.pendingFrames World.nextFrameId World.calls
       World.set_emissions World.set_selectedCountry
       World.set_loading World.set_error World.set_hoveredCountry World.set_scene
       World.set_camera World.set_renderer World.set_globe
       World.set_animationFrameId World.set_resizeObserver World.set_raycaster
       World.set_mouse World.set_isUserInteracting World.set_mouseDownTime
       World.set_targetRotation World.set_currentRotation World.set_acquisition
       World.set_pendingFrames World.set_nextFrameId World.set_calls] in *.

Ltac unfold_handlers :=
  cbv [dispatch ngOnInit ngAfterViewInit ngOnDestroy cleanup emissionsEffect
       selectedCountryEffect initializeGlobeAsync initializeGlobe animate
       handleResize setupResizeObserver setupEventListeners onTouchMove
       onTouchStart onMouseUp onMouseDown onMouseMove handleCountryClick
       detectHoveredCountry focusOnCountry updateGlobeData
       isInFlight isNotStarted negb orb andb].

Ltac unfold_observations :=
  cbv [emitted framesTracked scheduledTicks drawCalls clicks] in *.

Ltac open_world w :=
  destruct w as [b cont em sel ld er hov sc cam ren gl fid ro rc ms ui mdt tr cr
                 acq pf nf cs].

(** Split on the scrutinee of a [match] of the goal, innermost first. *)
Ltac case_step :=
  match goal with
  | |- context [match ?x with _ => _ end] => is_var x; destruct x
  | |- context [match ?x with _ => _ end] =>
      lazymatch x with
      | context [match _ with _ => _ end] => fail
      | _ => destruct x eqn:?
      end
  end.

(** Run a handler on an opened state: reduce, split on what the state
    leaves undecided, reduce again. *)
Ltac reduce := unfold_monad; unfold_world; cbv [negb andb orb].

Ltac exec := unfold_handlers; reduce; repeat (case_step; reduce).

(** Open the state and the invariant, with the pending frames known. *)
Ltac open_Inv w H :=
  destruct H as [Hm Hf Hu Hh He Hc]; open_world w;
  unfold_world; unfold_observations; unfold_world; subst;
  match goal with
  | Hf : _ \/ _ |- _ => destruct Hf as [-> | (? & -> & ->)]
  end;
  [| match goal with
     | Hu : ?a <> Settled -> _ |- _ =>
         assert (a = Settled) by
           (destruct a; try reflexivity; now specialize (Hu ltac:(discriminate)));
         subst a
     end ];
  match goal with
  | Hu : _ <> Settled -> _ |- _ => clear Hu
  end.

Ltac absurd_state :=
  match goal with
  | H : Some _ <> None -> None <> None |- _ => exfalso; apply H; congruence
  | H : InFlight = InFlight -> None <> None |- _ => exfalso; apply H; congruence
  end.

Ltac prove_Inv :=
  constructor; unfold_world; unfold_observations; unfold_world;
  simpl; rewrite ?Nat.eqb_refl; simpl; auto; try congruence;
  first
    [ now left
    | now (right; eexists; split; reflexivity)
    | match goal with
      | H : Some _ <> None -> ?m <> None |- _ -> ?m <> None =>
          now (intros _; apply H; discriminate)
      end
    | idtac ].

Lemma create_Inv (isBrowser : bool) (globeContainer : option Container) :
  Inv (create isBrowser globeContainer).
Proof.
  constructor; unfold framesTracked; simpl; auto; try discriminate.
Qed.

Lemma dispatch_Inv (e : Event) (w : World.t) :
  Inv w -> exists w', dispatch e w = Ok (tt, w') /\ Inv w'.
Proof.
  intros H. open_Inv w H.
  all: destruct e; exec.
  all: try absurd_state.
  all: eexists; (split; [reflexivity|]); prove_Inv.
Qed.

Lemma step_Inv (e : Event) (w : World.t) :
  Inv w -> exists w', step e w = Ok w' /\ Inv w'.
Proof.
  intros H. destruct (dispatch_Inv e w H) as (w' & E & H').
  exists w'. unfold step. now rewrite E.
Qed.

(** No handler throws, whatever the host sends and in whatever order. *)
Lemma run_Inv (events : list Event) : forall w,
  Inv w -> exists w', run events w = Ok w' /\ Inv w'.
Proof.
  induction events as [|e events IH]; intros w H; simpl.
  - now exists w.
  - destruct (step_Inv e w H) as (w1 & E & H1). rewrite E. now apply IH.
Qed.

Lemma reachable_Inv (w : World.t) : reachable w -> Inv w.
Proof.
  intros (b & c & events & E).
  destruct (run_Inv events (create b c) (create_Inv b c)) as (w' & E' & H).
  congruence.
Qed.

Lemma run_app (l1 l2 : list Event) : forall w,
  run (l1 ++ l2) w =
  match run l1 w with
  | Ok w' => run l2 w'
  | Throw err w' => Throw err w'
  end.
Proof.
  induction l1 as [|e l1 IH]; intros w; simpl; [reflexivity|].
  destruct (step e w); [apply IH | reflexivity].
Qed.

(** ** Selection and hover events *)

(** C10.  Whatever events the host delivers to a new component, and in
    whatever order, none of them throws, [hoveredCountry] is still [null]
    afterwards, and neither [countrySelected] nor [countryHovered] has
    emitted. *)
Theorem never_selects_nor_hovers :
  forall (isBrowser : bool) (globeContainer : option Container)
         (events : list Event),
  exists w,
    run events (create isBrowser globeContainer) = Ok w /\
    World.hoveredCountry w = None /\
    emitted w = [] /\
    (forall c, In (EmitCountrySelected c) (World.calls w) -> False) /\
    (forall c, In (EmitCountryHovered c) (World.calls w) -> False).
Proof.
  intros b c events.
  destruct (run_Inv events (create b c) (create_Inv b c)) as (w & E & H).
  exists w. destruct H as [_ _ _ Hh He _].
  assert (Hno : forall x, In x (World.calls w) -> isEmit x = false).
  { intros x Hin. destruct (isEmit x) eqn:Ex; [|reflexivity].
    assert (Hf : In x (emitted w)) by (apply filter_In; auto).
    rewrite He in Hf. destruct Hf. }
  repeat split; try assumption.
  - intros k Hin. now apply Hno in Hin.
  - intros k Hin. now apply Hno in Hin.
Qed.

(** ** The render loop *)

(** C9.  A tick in the browser moves [currentRotation] towards the
    [targetRotation] it finds by a tenth of the remaining distance, on each
    axis by itself; then, unless the user is interacting, it advances
    [targetRotation.y] by [0.001].  It schedules the next tick. *)
Theorem animate_damps_and_drifts :
  forall w : World.t,
    World.isBrowser w = true ->
    exists w',
      animate w = Ok (tt, w') /\
      World.currentRotation w' =
        Rotation.mk
          (Rotation.x (World.currentRotation w) +
           (Rotation.x (World.targetRotation w) - Rotation.x (World.currentRotation w)) * 0.1)
          (Rotation.y (World.currentRotation w) +
           (Rotation.y (World.targetRotation w) - Rotation.y (World.currentRotation w)) * 0.1) /\
      World.targetRotation w' =
        (if World.isUserInteracting w then World.targetRotation w
         else Rotation.mk (Rotation.x (World.targetRotation w))
                          (Rotation.y (World.targetRotation w) + 0.001)) /\
      World.isUserInteracting w' = World.isUserInteracting w /\
      World.isBrowser w' = true /\
      scheduledTicks w' = S (scheduledTicks w).
Proof.
  intros w Hb. open_world w. unfold_world. subst b.
  unfold_observations. exec.
  all: eexists; repeat split; reflexivity.
Qed.

Lemma animate_damps_and_drifts_witness :
  exists w',
    animate (create true (Some someContainer)) = Ok (tt, w') /\
    World.currentRotation w' = Rotation.mk (0 + (0 - 0) * 0.1) (0 + (0 - 0) * 0.1) /\
    World.targetRotation w' = Rotation.mk 0 (0 + 0.001).
Proof.
  destruct (animate_damps_and_drifts (create true (Some someContainer)) eq_refl)
    as (w' & E & Hc & Ht & _).
  exists w'. repeat split; assumption.
Defined.

(** What a tick does to the pitch: the target stays, the current value
    moves a tenth of the way. *)
Lemma animate_pitch (w : World.t) :
  World.isBrowser w = true ->
  exists w',
    animate w = Ok (tt, w') /\
    World.isBrowser w' = true /\
    Rotation.x (World.targetRotation w') = Rotation.x (World.targetRotation w) /\
    Rotation.x (World.currentRotation w') =
      Rotation.x (World.currentRotation w) +
      (Rotation.x (World.targetRotation w) - Rotation.x (World.currentRotation w)) * 0.1.
Proof.
  intros Hb. open_world w. unfold_world. subst b. exec.
  all: eexists; repeat split; reflexivity.
Qed.

(** Repeated ticks ease exponentially: on the pitch axis, which no tick
    retargets, the distance left after [n] ticks is [0.9 ^ n] times the
    distance at the start. *)
Lemma ticks_ease_exponentially (n : nat) : forall (w : World.t) (t c : Q),
  World.isBrowser w = true ->
  Rotation.x (World.targetRotation w) = Fin t ->
  Rotation.x (World.currentRotation w) = Fin c ->
  exists w' c',
    ticks n w = Ok w' /\
    Rotation.x (World.targetRotation w') = Fin t /\
    Rotation.x (World.currentRotation w') = Fin c' /\
    (t - c' == 0.9 ^ Z.of_nat n * (t - c))%Q.
Proof.
  induction n as [|n IH]; intros w t c Hb Ht Hc.
  - exists w, c. repeat split; try assumption. simpl. ring.
  - destruct (animate_pitch w Hb) as (w1 & E & Hb1 & Ht1 & Hc1).
    cbn [ticks]. rewrite E.
    rewrite Ht in Ht1. rewrite Ht, Hc in Hc1. cbn in Hc1.
    destruct (IH w1 t _ Hb1 Ht1 Hc1) as (w' & c' & E' & Ht' & Hc' & Hd).
    exists w', c'. repeat split; try assumption.
    rewrite Hd, Nat2Z.inj_succ. unfold Z.succ.
    rewrite Qpower_plus by (intros H; discriminate H).
    change (0.9 ^ 1)%Q with 0.9%Q. ring.
Qed.

(** ** Focus on a country *)

(** C7.  A focus request for a code with stored coordinates assigns
    [targetRotation] the pitch [lat * PI / 180] and the yaw
    [- lng * PI / 180] of those coordinates, and touches neither the
    current rotation nor the pointer state; coordinates [(0, 90)] give the
    pitch [0] and the yaw [- PI / 2]. *)
Theorem focusOnCountry_sets_targetRotation :
  forall (countryCode : string) (coords : CountryCoordinate.t) (w : World.t),
    JsMap.get (toUpperCase countryCode) COUNTRY_COORDINATES = Some coords ->
    (exists w',
       focusOnCountry countryCode w = Ok (tt, w') /\
       World.targetRotation w' =
         Rotation.mk (CountryCoordinate.lat coords * Number.PI / 180)
                     (- CountryCoordinate.lng coords * Number.PI / 180) /\
       World.currentRotation w' = World.currentRotation w /\
       World.isUserInteracting w' = World.isUserInteracting w /\
       World.mouseDownTime w' = World.mouseDownTime w /\
       World.calls w' = World.calls w) /\
    (forall lat lng : Q, forall name : string,
       Rotation.x (rotationFor (mkCoord lat lng name)) =n=
         Fin (lat * (Number.PI_value / 180)) /\
       Rotation.y (rotationFor (mkCoord lat lng name)) =n=
         Fin (- lng * (Number.PI_value / 180))) /\
    (forall name : string,
       Rotation.x (rotationFor (mkCoord 0 90 name)) =n= Fin 0 /\
       Rotation.y (rotationFor (mkCoord 0 90 name)) =n= - (Number.PI / 2)).
Proof.
  intros countryCode coords w Hget. split; [|split].
  - unfold focusOnCountry, getCountryCoordinates, propertyOf. rewrite Hget.
    open_world w. reduce. eexists. repeat split; reflexivity.
  - intros lat lng name. cbn. split; field.
  - intros name. split; vm_compute; reflexivity.
Qed.

Lemma focusOnCountry_sets_targetRotation_witness :
  exists w',
    focusOnCountry "us" (create true None) = Ok (tt, w') /\
    World.targetRotation w' =
      Rotation.mk (Fin 37.0902 * Number.PI / 180) (- Fin (-95.7129) * Number.PI / 180).
Proof.
  destruct (focusOnCountry_sets_targetRotation "us"
              (mkCoord 37.0902 (-95.7129) "United States") (create true None) eq_refl)
    as [(w' & E & Ht & _) _].
  exists w'. split; assumption.
Defined.

(** ** Clicks and drags *)

Lemma mouseMove_keeps_press (event : MouseEvent) (w : World.t) :
  Inv w ->
  exists w',
    step (MouseMove event) w = Ok w' /\ Inv w' /\
    World.mouseDownTime w' = World.mouseDownTime w /\
    World.calls w' = World.calls w.
Proof.
  intros H. unfold step. open_Inv w H.
  all: exec.
  all: try absurd_state.
  all: eexists; (split; [reflexivity|]); (split; [prove_Inv|]); split; reflexivity.
Qed.

Lemma mouseMoves_keep_press (moves : list MouseEvent) : forall w,
  Inv w ->
  exists w',
    run (map MouseMove moves) w = Ok w' /\ Inv w' /\
    World.mouseDownTime w' = World.mouseDownTime w /\
    World.calls w' = World.calls w.
Proof.
  induction moves as [|m moves IH]; intros w H; simpl.
  - exists w. split; [reflexivity|]. split; [assumption|]. split; reflexivity.
  - destruct (mouseMove_keeps_press m w H) as (w1 & E & H1 & Ht & Hc). rewrite E.
    destruct (IH w1 H1) as (w2 & E2 & H2 & Ht2 & Hc2).
    exists w2. split; [assumption|]. split; [assumption|]. split; congruence.
Qed.

Lemma mouseDown_records_time (now : Z) (w : World.t) :
  Inv w ->
  exists w',
    step (MouseDown now) w = Ok w' /\ Inv w' /\
    World.mouseDownTime w' = now /\ World.calls w' = World.calls w.
Proof.
  intros H. unfold step. open_Inv w H.
  all: exec.
  all: eexists; (split; [reflexivity|]); (split; [prove_Inv|]); split; reflexivity.
Qed.

Lemma mouseUp_classifies (now : Z) (w : World.t) :
  Inv w ->
  exists w',
    step (MouseUp now) w = Ok w' /\ Inv w' /\
    World.isUserInteracting w' = false /\
    World.calls w' =
      if (now - World.mouseDownTime w <? 200)%Z
      then HandleCountryClick :: World.calls w
      else World.calls w.
Proof.
  intros H. unfold step. open_Inv w H.
  all: exec.
  all: eexists; (split; [reflexivity|]); (split; [prove_Inv|]); split; reflexivity.
Qed.

(** C2, as the code has it.  From any state the host can bring about, a
    press at [down], any pointer moves, and a release at [up] run without
    error, and the release enters the click path exactly when
    [up - down < 200], whether or not the pointer moved in between; no
    selection or hover event is emitted either way. *)
Theorem release_is_click_by_elapsed_time :
  forall (w : World.t) (down up : Z) (moves : list MouseEvent),
    reachable w ->
    exists w',
      run (MouseDown down :: map MouseMove moves ++ [MouseUp up]) w = Ok w' /\
      clicks w' = (clicks w + (if (up - down <? 200)%Z then 1 else 0))%nat /\
      emitted w' = [] /\
      World.isUserInteracting w' = false.
Proof.
  intros w down up moves Hr. apply reachable_Inv in Hr.
  destruct (mouseDown_records_time down w Hr) as (w1 & E1 & H1 & Ht1 & Hc1).
  destruct (mouseMoves_keep_press moves w1 H1) as (w2 & E2 & H2 & Ht2 & Hc2).
  destruct (mouseUp_classifies up w2 H2) as (w3 & E3 & H3 & Hu3 & Hc3).
  exists w3. cbn [run]. rewrite E1, run_app, E2. cbn [run]. rewrite E3.
  repeat split.
  - unfold clicks. rewrite Hc3, Ht2, Ht1, Hc2, Hc1.
    destruct (up - down <? 200)%Z; simpl; lia.
  - apply (inv_emitted _ H3).
  - assumption.
Qed.

Lemma release_is_click_by_elapsed_time_witness :
  exists w',
    run (MouseDown 0 :: map MouseMove [pointerAt 10 0 1] ++ [MouseUp 50])
        (create true (Some someContainer)) = Ok w' /\
    clicks w' = 1%nat.
Proof.
  destruct (release_is_click_by_elapsed_time (create true (Some someContainer))
              0 50 [pointerAt 10 0 1])
    as (w' & E & Hc & _).
  - exists true, (Some someContainer), []. reflexivity.
  - exists w'. split; assumption.
Defined.

(** C2, as stated, fails.  On an initialised globe: press at [0], move by
    [(10, 0)] with the primary button held, release at [50].  The movement
    was recorded, as the target rotation shows ([0.001] of drift and
    [10 * 0.005] of drag), and the release entered the click path. *)
Lemma drag_released_early_enters_click_path :
  match run started (create true (Some someContainer)) with
  | Ok ready =>
      match run dragAndRelease ready with
      | Ok released =>
          Rotation.y (World.targetRotation ready) =n= Fin 0.001 /\
          Rotation.y (World.targetRotation released) =n= Fin 0.051 /\
          clicks ready = 0%nat /\ clicks released = 1%nat /\
          In HandleCountryClick (World.calls released)
      | Throw _ _ => False
      end
  | Throw _ _ => False
  end.
Proof. vm_compute. repeat split; auto. Qed.

(** ** Teardown *)

Lemma cleanup_twice (w : World.t) :
  Inv w ->
  exists w1,
    cleanup w = Ok (tt, w1) /\ cleanup w1 = Ok (tt, w1) /\ Inv w1 /\
    World.animationFrameId w1 = None /\ World.pendingFrames w1 = [] /\
    World.acquisition w1 = World.acquisition w.
Proof.
  intros H. open_Inv w H.
  all: exec.
  all: eexists; (split; [reflexivity|]).
  all: split; [exec; reflexivity|].
  all: split; [prove_Inv|].
  all: unfold_world; simpl; rewrite ?Nat.eqb_refl; repeat split; reflexivity.
Qed.

(** With no frame pending, no event schedules a tick or draws, the
    resolution of awaited imports apart; once the imports have settled they
    stay settled. *)
Lemma step_stopped (e : Event) (w : World.t) :
  Inv w -> World.pendingFrames w = [] ->
  World.acquisition w = Settled \/ e <> ImportsResolved ->
  exists w',
    step e w = Ok w' /\ Inv w' /\ World.pendingFrames w' = [] /\
    scheduledTicks w' = scheduledTicks w /\ drawCalls w' = drawCalls w /\
    (World.acquisition w = Settled -> World.acquisition w' = Settled).
Proof.
  intros H Hp Hne. unfold step. revert Hp Hne.
  open_Inv w H; intros Hp Hne; [|discriminate Hp]. clear Hp.
  destruct Hne as [-> | Hne]; [destruct e | destruct e; try congruence; clear Hne].
  all: exec.
  all: try absurd_state.
  all: eexists; (split; [reflexivity|]); (split; [prove_Inv|]).
  all: repeat split; try reflexivity; intros; congruence.
Qed.

Lemma run_stopped (later : list Event) : forall w,
  Inv w -> World.pendingFrames w = [] ->
  World.acquisition w = Settled \/ Forall (fun e => e <> ImportsResolved) later ->
  exists w',
    run later w = Ok w' /\
    scheduledTicks w' = scheduledTicks w /\ drawCalls w' = drawCalls w.
Proof.
  induction later as [|e later IH]; intros w H Hp Hl; simpl.
  - exists w. auto.
  - assert (He : World.acquisition w = Settled \/ e <> ImportsResolved).
    { destruct Hl as [Hs | Hl]; [now left | right]. now inversion Hl. }
    destruct (step_stopped e w H Hp He) as (w1 & E & H1 & Hp1 & Ht1 & Hd1 & Hs1).
    rewrite E.
    assert (Hl' : World.acquisition w1 = Settled \/
                  Forall (fun e => e <> ImportsResolved) later).
    { destruct Hl as [Hs | Hl]; [left; auto | right]. now inversion Hl. }
    destruct (IH w1 H1 Hp1 Hl') as (w2 & E2 & Ht2 & Hd2).
    exists w2. repeat split; congruence.
Qed.

(** What does hold of teardown.  From any state the host can bring about,
    [cleanup] returns without error, and [cleanup] again returns without
    error and changes nothing; the same holds of a component that was never
    initialised, all of whose resource fields are [null].  After [cleanup]
    no frame callback is pending, and whatever the host delivers next, no
    tick is scheduled and nothing is drawn: this for every sequence of
    events when the initialisation had settled before the teardown, and
    otherwise for every sequence in which the awaited imports do not
    resolve afterwards. *)
Lemma cleanup_stops_ticks_once_settled :
  forall w : World.t,
    reachable w ->
    exists w1,
      cleanup w = Ok (tt, w1) /\
      cleanup w1 = Ok (tt, w1) /\
      World.animationFrameId w1 = None /\
      World.pendingFrames w1 = [] /\
      (forall later : list Event,
         World.acquisition w = Settled \/
         Forall (fun e => e <> ImportsResolved) later ->
         exists w2,
           run later w1 = Ok w2 /\
           scheduledTicks w2 = scheduledTicks w1 /\
           drawCalls w2 = drawCalls w1) /\
      (forall (isBrowser : bool) (globeContainer : option Container),
         cleanup (create isBrowser globeContainer) =
         Ok (tt, create isBrowser globeContainer)).
Proof.
  intros w Hr. apply reachable_Inv in Hr.
  destruct (cleanup_twice w Hr) as (w1 & E1 & E2 & H1 & Hid & Hp & Ha).
  exists w1. repeat split; try assumption.
  intros later Hl. apply run_stopped; try assumption. now rewrite Ha.
Qed.

(** A running globe torn down twice: one cancellation, and the frames the
    host offers afterwards run nothing. *)
Example teardown_of_running_globe :
  match run (started ++ [AnimationFrame; NgOnDestroy; NgOnDestroy;
                         AnimationFrame; AnimationFrame])
            (create true (Some someContainer)) with
  | Ok w =>
      scheduledTicks w = 2%nat /\ drawCalls w = 2%nat /\
      World.pendingFrames w = [] /\
      filter (fun c => match c with CancelAnimationFrame _ => true | _ => false end)
        (World.calls w) = [CancelAnimationFrame 2]
  | Throw _ _ => False
  end.
Proof. vm_compute. repeat split. Qed.

(** C8, as stated, fails on the code.  A component is torn down while its
    dynamic imports are awaited: [cleanup] returns, a second [cleanup]
    changes nothing, no frame is pending and no tick has been scheduled.
    The imports then resolve, and [initializeGlobeAsync] goes on where it
    was suspended: it builds the renderer and the globe on the destroyed
    component and calls [animate].  Over the three frames the host delivers
    next, the scheduled ticks go from [0] to [4], each tick draws, and a
    frame is still pending. *)
Theorem teardown_while_loading_keeps_ticking :
  match run loadingEvents (create true (Some someContainer)) with
  | Ok loading =>
      match cleanup loading with
      | Ok (_, torn) =>
          match run lateResolution torn with
          | Ok revived =>
              World.acquisition loading = InFlight /\
              cleanup torn = Ok (tt, torn) /\
              allNull torn /\ World.pendingFrames torn = [] /\
              scheduledTicks torn = 0%nat /\ drawCalls torn = 0%nat /\
              scheduledTicks revived = 4%nat /\ drawCalls revived = 4%nat /\
              World.pendingFrames revived = [4%nat] /\
              World.animationFrameId revived = Some 4%nat /\
              truthy (World.renderer revived) = true /\
              truthy (World.globe revived) = true
          | Throw _ _ => False
          end
      | Throw _ _ => False
      end
  | Throw _ _ => False
  end.
Proof. vm_compute. repeat split. Qed.

(** * Further properties *)

(** ** The coordinate table and its three readers *)

Lemma upperAscii_idempotent (c : ascii) : upperAscii (upperAscii c) = upperAscii c.
Proof.
  destruct c as [[] [] [] [] [] [] [] []]; reflexivity.
Qed.

Lemma toUpperCase_idempotent (s : string) : toUpperCase (toUpperCase s) = toUpperCase s.
Proof.
  induction s as [|c s IH]; simpl; [reflexivity|].
  now rewrite upperAscii_idempotent, IH.
Qed.

Lemma get_Some_In {V : Type} (k : string) (v : V) (m : JsMap.t V) :
  JsMap.get k m = Some v -> In (k, v) m.
Proof.
  induction m as [|[k' v'] m IH]; simpl; [discriminate|].
  destruct (String.eqb k k') eqn:E.
  - apply String.eqb_eq in E. subst. intros [= ->]. now left.
  - right. auto.
Qed.

Lemma get_Some_key {V : Type} (k : string) (m : JsMap.t V) :
  In k (JsMap.keys m) <-> exists v, JsMap.get k m = Some v.
Proof.
  split.
  - intros Hin. destruct (JsMap.get k m) as [v|] eqn:G; [now exists v|].
    apply get_None_keys in G. contradiction.
  - intros (v & G). destruct (in_dec string_dec k (JsMap.keys m)) as [H | H]; [assumption|].
    apply get_None_keys in H. congruence.
Qed.

Lemma COUNTRY_COORDINATES_keys_upper :
  forall k, In k (JsMap.keys COUNTRY_COORDINATES) -> toUpperCase k = k.
Proof.
  assert (H : forallb (fun k => String.eqb (toUpperCase k) k)
                (JsMap.keys COUNTRY_COORDINATES) = true) by (vm_compute; reflexivity).
  rewrite forallb_forall in H. intros k Hin. now apply String.eqb_eq, H.
Qed.

(** X1.  [hasCountryCoordinates] answers whether the uppercased code is one
    of [getAvailableCountryCodes()], and the three readers agree: a code that
    has coordinates gets its table entry from [getCountryCoordinates], a
    code that has none gets the default, and every available code has
    coordinates and is looked up to its own entry. *)
Theorem hasCountryCoordinates_agrees :
  forall countryCode : string,
    (hasCountryCoordinates countryCode = true <->
     In (toUpperCase countryCode) getAvailableCountryCodes) /\
    (hasCountryCoordinates countryCode = true ->
     In (toUpperCase countryCode, getCountryCoordinates countryCode)
        COUNTRY_COORDINATES) /\
    (hasCountryCoordinates countryCode = false ->
     getCountryCoordinates countryCode =
     CountryCoordinate.mk (Fin 0) (Fin 0) countryCode) /\
    (In countryCode getAvailableCountryCodes ->
     hasCountryCoordinates countryCode = true /\
     JsMap.get countryCode COUNTRY_COORDINATES =
     Some (getCountryCoordinates countryCode)).
Proof.
  intros code. unfold hasCountryCoordinates, getCountryCoordinates,
    getAvailableCountryCodes, propertyOf.
  repeat split.
  - intros H. apply get_Some_key.
    destruct (JsMap.get (toUpperCase code) COUNTRY_COORDINATES) as [c|];
      [now exists c | discriminate].
  - intros H. apply get_Some_key in H. destruct H as (c & ->). reflexivity.
  - destruct (JsMap.get (toUpperCase code) COUNTRY_COORDINATES) as [c|] eqn:G;
      [intros _ | discriminate].
    now apply get_Some_In.
  - destruct (JsMap.get (toUpperCase code) COUNTRY_COORDINATES) as [c|];
      [discriminate | reflexivity].
  - rewrite (COUNTRY_COORDINATES_keys_upper code H).
    apply get_Some_key in H. destruct H as (c & ->). reflexivity.
  - rewrite (COUNTRY_COORDINATES_keys_upper code H).
    apply get_Some_key in H. destruct H as (c & ->). reflexivity.
Qed.

(** X2.  The lookup does not depend on the case of the code: uppercasing a
    code changes neither whether it has coordinates nor the latitude and
    longitude found, and changes the whole result only for an unknown code,
    whose name is the code as written. *)
Theorem getCountryCoordinates_ignores_case :
  forall countryCode : string,
    hasCountryCoordinates (toUpperCase countryCode) =
      hasCountryCoordinates countryCode /\
    CountryCoordinate.lat (getCountryCoordinates (toUpperCase countryCode)) =
      CountryCoordinate.lat (getCountryCoordinates countryCode) /\
    CountryCoordinate.lng (getCountryCoordinates (toUpperCase countryCode)) =
      CountryCoordinate.lng (getCountryCoordinates countryCode) /\
    (hasCountryCoordinates countryCode = true ->
     getCountryCoordinates (toUpperCase countryCode) =
       getCountryCoordinates countryCode) /\
    (hasCountryCoordinates countryCode = false ->
     CountryCoordinate.name (getCountryCoordinates (toUpperCase countryCode)) =
       toUpperCase countryCode /\
     CountryCoordinate.name (getCountryCoordinates countryCode) = countryCode).
Proof.
  intros code. unfold hasCountryCoordinates, getCountryCoordinates, propertyOf.
  rewrite toUpperCase_idempotent.
  destruct (JsMap.get (toUpperCase code) COUNTRY_COORDINATES) as [c|];
    repeat split; try reflexivity; discriminate.
Qed.

Lemma COUNTRY_COORDINATES_in_range :
  forall k c, In (k, c) COUNTRY_COORDINATES ->
    exists lat lng : Q,
      CountryCoordinate.lat c = Fin lat /\ CountryCoordinate.lng c = Fin lng /\
      (-90 <= lat)%Q /\ (lat <= 90)%Q /\ (-180 <= lng)%Q /\ (lng <= 180)%Q.
Proof.
  assert (H : forallb
            (fun kc =>
               match CountryCoordinate.lat (snd kc), CountryCoordinate.lng (snd kc) with
               | Fin lat, Fin lng =>
                   Qle_bool (-90) lat && Qle_bool lat 90 &&
                   Qle_bool (-180) lng && Qle_bool lng 180
               | _, _ => false
               end) COUNTRY_COORDINATES = true) by (vm_compute; reflexivity).
  rewrite forallb_forall in H. intros k c Hin. specialize (H (k, c) Hin). simpl in H.
  destruct (CountryCoordinate.lat c) as [lat| | |]; try discriminate.
  destruct (CountryCoordinate.lng c) as [lng| | |]; try discriminate.
  rewrite !andb_true_iff, !Qle_bool_iff in H.
  exists lat, lng. tauto.
Qed.

(** X3.  Whatever the code, the coordinates returned are finite, with the
    latitude within [[-90, 90]] and the longitude within [[-180, 180]]. *)
Theorem getCountryCoordinates_in_range :
  forall countryCode : string,
  exists lat lng : Q,
    CountryCoordinate.lat (getCountryCoordinates countryCode) = Fin lat /\
    CountryCoordinate.lng (getCountryCoordinates countryCode) = Fin lng /\
    (-90 <= lat)%Q /\ (lat <= 90)%Q /\ (-180 <= lng)%Q /\ (lng <= 180)%Q.
Proof.
  intros code. unfold getCountryCoordinates, propertyOf.
  destruct (JsMap.get (toUpperCase code) COUNTRY_COORDINATES) as [c|] eqn:G.
  - apply get_Some_In in G. eapply COUNTRY_COORDINATES_in_range; eassumption.
  - exists 0%Q, 0%Q. simpl. repeat split; lra.
Qed.

(** ** More on the aggregation *)

Lemma existsb_eqb_In (v : string) (l : list string) :
  existsb (String.eqb v) l = true <-> In v l.
Proof.
  rewrite existsb_exists. split.
  - intros (x & Hin & E). apply String.eqb_eq in E. now subst.
  - intros Hin. exists v. split; [assumption | apply String.eqb_refl].
Qed.

Lemma aggregateStep_keys (m : JsMap.t Rollup.t) (e : Emission.t) :
  JsMap.keys (aggregateStep m e) = setAdd (JsMap.keys m) (Emission.country e).
Proof.
  unfold aggregateStep, setAdd.
  destruct (JsMap.get (Emission.country e) m) as [r|] eqn:G.
  - assert (Hin : In (Emission.country e) (JsMap.keys m))
      by (apply get_Some_key; eauto).
    rewrite keys_set_present by assumption.
    apply existsb_eqb_In in Hin. now rewrite Hin.
  - apply get_None_keys in G. rewrite keys_set_absent by assumption.
    destruct (existsb (String.eqb (Emission.country e)) (JsMap.keys m)) eqn:E;
      [|reflexivity].
    apply existsb_eqb_In in E. contradiction.
Qed.

Lemma aggregate_keys_order (l : list Emission.t) : forall m,
  JsMap.keys (fold_left aggregateStep l m) =
  fold_left setAdd (map Emission.country l) (JsMap.keys m).
Proof.
  induction l as [|e l IH]; intros m; simpl; [reflexivity|].
  now rewrite IH, aggregateStep_keys.
Qed.

Lemma set_keeps_own (k0 : string) (v : Rollup.t) (m : JsMap.t Rollup.t) :
  Rollup.country v = k0 ->
  (forall k r, In (k, r) m -> Rollup.country r = k) ->
  forall k r, In (k, r) (JsMap.set k0 v m) -> Rollup.country r = k.
Proof.
  intros Hv. induction m as [|[k' r'] m IHm]; intros Hm k r; simpl.
  - intros [[= <- <-] | []]. assumption.
  - destruct (String.eqb k0 k') eqn:E.
    + apply String.eqb_eq in E. subst k'.
      intros [[= <- <-] | Hin]; [assumption | apply Hm; now right].
    + intros [[= <- <-] | Hin]; [apply Hm; now left|].
      apply IHm; [|assumption]. intros k1 r1 H1. apply Hm. now right.
Qed.

(** Every rollup is filed under its own country code. *)
Lemma aggregate_values_countries (emissions : list Emission.t) :
  map Rollup.country (JsMap.values (aggregateEmissionsByCountry emissions)) =
  JsMap.keys (aggregateEmissionsByCountry emissions).
Proof.
  assert (Hown : forall l m,
            (forall k r, In (k, r) m -> Rollup.country r = k) ->
            forall k r, In (k, r) (fold_left aggregateStep l m) -> Rollup.country r = k).
  { induction l as [|e l IH]; intros m Hm; simpl; [assumption|].
    apply IH. intros k r Hin. unfold aggregateStep in Hin.
    destruct (JsMap.get (Emission.country e) m) as [old|] eqn:G.
    - apply get_Some_In, Hm in G.
      eapply set_keeps_own; [| exact Hm | exact Hin]. exact G.
    - eapply set_keeps_own; [| exact Hm | exact Hin]. reflexivity. }
  unfold JsMap.values, JsMap.keys. rewrite map_map.
  apply map_ext_in. intros [k r] Hin. simpl.
  apply (Hown emissions JsMap.empty); [intros ? ? [] | assumption].
Qed.

(** X4.  The rollups come in the order in which their country codes first
    occur in the input, which is therefore the order of the points on the
    globe. *)
Theorem aggregateEmissionsByCountry_order :
  forall emissions : list Emission.t,
    JsMap.keys (aggregateEmissionsByCountry emissions) =
      setFrom (map Emission.country emissions) /\
    map GlobePointData.country
      (transformToGlobePoints (aggregateEmissionsByCountry emissions)) =
      setFrom (map Emission.country emissions).
Proof.
  intros emissions.
  assert (Hkeys : JsMap.keys (aggregateEmissionsByCountry emissions) =
                  setFrom (map Emission.country emissions))
    by apply aggregate_keys_order.
  split; [assumption|].
  now rewrite transformToGlobePoints_countries, aggregate_values_countries.
Qed.

(** A write to a map: over the old value where the key is, at the end where
    it is not. *)
Lemma set_shape {V : Type} (k : string) (v : V) (m : JsMap.t V) :
  match JsMap.get k m with
  | Some old =>
      exists m1 m2, m = m1 ++ (k, old) :: m2 /\ JsMap.set k v m = m1 ++ (k, v) :: m2
  | None => JsMap.set k v m = m ++ [(k, v)]
  end.
Proof.
  induction m as [|[k' v'] m IH]; simpl; [reflexivity|].
  destruct (String.eqb k k') eqn:E.
  - apply String.eqb_eq in E. subst k'. exists [], m. split; reflexivity.
  - destruct (JsMap.get k m) as [old|].
    + destruct IH as (m1 & m2 & -> & ->). exists ((k', v') :: m1), m2. split; reflexivity.
    + now rewrite IH.
Qed.

Lemma aggregateStep_counts (m : JsMap.t Rollup.t) (e : Emission.t) :
  list_sum (map Rollup.count (JsMap.values (aggregateStep m e))) =
  S (list_sum (map Rollup.count (JsMap.values m))).
Proof.
  unfold aggregateStep, JsMap.values.
  destruct (JsMap.get (Emission.country e) m) as [old|] eqn:G.
  - pose proof (set_shape (Emission.country e)
                  (Rollup.mk (Rollup.country old)
                     (Rollup.totalEmissions old + Emission.emissions e)
                     (Rollup.count old + 1)) m) as H.
    rewrite G in H. destruct H as (m1 & m2 & -> & ->).
    rewrite !map_app, !list_sum_app. simpl. lia.
  - pose proof (set_shape (Emission.country e)
                  (Rollup.mk (Emission.country e) (Emission.emissions e) 1) m) as H.
    rewrite G in H. rewrite H, !map_app, list_sum_app. simpl. lia.
Qed.

(** X5.  No record is lost or counted twice: the record counts of the
    rollups add up to the number of records. *)
Theorem aggregateEmissionsByCountry_counts :
  forall emissions : list Emission.t,
    list_sum (map Rollup.count
                (JsMap.values (aggregateEmissionsByCountry emissions))) =
    List.length emissions.
Proof.
  intros emissions.
  assert (Hgen : forall l m,
            list_sum (map Rollup.count (JsMap.values (fold_left aggregateStep l m))) =
            (list_sum (map Rollup.count (JsMap.values m)) + List.length l)%nat).
  { induction l as [|e l IH]; intros m; simpl; [lia|].
    rewrite IH, aggregateStep_counts. lia. }
  apply (Hgen emissions JsMap.empty).
Qed.

(** ** Totals of amounts that are not negative *)

(** Adding amounts that are not negative, left to right: the sum is at
    least the start and at least each amount. *)
Lemma fold_add_dominates (l : list number) : forall a : Q,
  (0 <= a)%Q -> Forall nonNegative l ->
  exists q : Q,
    fold_left Number.add l (Fin a) = Fin q /\ (a <= q)%Q /\
    (forall x : Q, In (Fin x) l -> (x <= q)%Q).
Proof.
  induction l as [|b l IH]; intros a Ha Hl; simpl.
  - exists a. split; [reflexivity|]. split; [lra | intros x []].
  - inversion Hl as [|? ? Hb Hl']; subst.
    destruct b as [b| | |]; try contradiction. simpl in Hb.
    destruct (IH (a + b)%Q ltac:(lra) Hl') as (q & E & Hq & Hall).
    exists q. split; [assumption|]. split; [lra|].
    intros x [[= <-] | Hin]; [lra | auto].
Qed.

Lemma aggregateStep_nonNegative (m : JsMap.t Rollup.t) (e : Emission.t) :
  nonNegative (Emission.emissions e) -> wellFormed m ->
  wellFormed (aggregateStep m e).
Proof.
  intros He Hm. unfold wellFormed, aggregateStep, JsMap.values in *.
  destruct (Emission.emissions e) as [q| | |]; try contradiction. simpl in He.
  destruct (JsMap.get (Emission.country e) m) as [old|] eqn:G.
  - pose proof (set_shape (Emission.country e)
                  (Rollup.mk (Rollup.country old)
                     (Rollup.totalEmissions old + Fin q) (Rollup.count old + 1)) m) as H.
    rewrite G in H. destruct H as (m1 & m2 & -> & ->).
    rewrite !map_app in *. simpl in *.
    apply Forall_app in Hm. destruct Hm as [H1 H2].
    inversion H2 as [|? ? Hold H3]; subst.
    apply Forall_app. split; [assumption|]. constructor; [|assumption].
    simpl. destruct (Rollup.totalEmissions old) as [t| | |]; try contradiction.
    simpl in *. lra.
  - pose proof (set_shape (Emission.country e)
                  (Rollup.mk (Emission.country e) (Fin q) 1) m) as H.
    rewrite G in H. rewrite H, !map_app.
    apply Forall_app. split; [assumption|]. repeat constructor. assumption.
Qed.

Lemma aggregate_nonNegative (emissions : list Emission.t) :
  Forall (fun e => nonNegative (Emission.emissions e)) emissions ->
  wellFormed (aggregateEmissionsByCountry emissions).
Proof.
  intros Hl. unfold aggregateEmissionsByCountry.
  assert (Hgen : forall l m,
            Forall (fun e => nonNegative (Emission.emissions e)) l ->
            wellFormed m -> wellFormed (fold_left aggregateStep l m)).
  { induction l as [|e l IH]; intros m Hall Hm; simpl; [assumption|].
    inversion Hall; subst. apply IH; [assumption|].
    now apply aggregateStep_nonNegative. }
  apply Hgen; [assumption | constructor].
Qed.

(** X6.  Where no amount is negative, nothing cancels: every record's
    country has a rollup, whose total is not negative and not below the
    record's own amount, and the maximum that scales the globe is not below
    that total. *)
Theorem aggregateEmissionsByCountry_dominates :
  forall (emissions : list Emission.t) (e : Emission.t),
    Forall (fun e => nonNegative (Emission.emissions e)) emissions ->
    In e emissions ->
    exists r,
      JsMap.get (Emission.country e) (aggregateEmissionsByCountry emissions) = Some r /\
      Number.le (Fin 0) (Rollup.totalEmissions r) = true /\
      Number.le (Emission.emissions e) (Rollup.totalEmissions r) = true /\
      Number.le (Rollup.totalEmissions r)
                (maxEmissionsOf (aggregateEmissionsByCountry emissions)) = true.
Proof.
  intros emissions e Hall Hin.
  pose proof (aggregate_nonNegative emissions Hall) as Hwf.
  assert (Hrec : In e (recordsOf (Emission.country e) emissions)).
  { apply filter_In. split; [assumption | apply String.eqb_refl]. }
  assert (Hpos : Forall nonNegative
                   (map Emission.emissions (recordsOf (Emission.country e) emissions))).
  { apply Forall_map. unfold recordsOf. apply Forall_forall. intros x Hx.
    apply filter_In in Hx. rewrite Forall_forall in Hall. now apply Hall. }
  unfold aggregateEmissionsByCountry in *. rewrite aggregate_get. simpl.
  destruct (recordsOf (Emission.country e) emissions) as [|e0 rest] eqn:R;
    [destruct Hrec|].
  simpl in Hpos. inversion Hpos as [|? ? H0 Hrest]; subst.
  destruct (Emission.emissions e0) as [a| | |] eqn:E0; try contradiction. simpl in H0.
  destruct (fold_add_dominates _ a H0 Hrest) as (q & Eq & Haq & Hq).
  eexists. split; [reflexivity|]. cbn [Rollup.totalEmissions]. rewrite Eq.
  assert (Hle : forall x, Emission.emissions e = Fin x -> (x <= q)%Q).
  { intros x Ex. destruct Hrec as [<- | Hr].
    - rewrite E0 in Ex. injection Ex as <-. assumption.
    - apply Hq. rewrite <- Ex. now apply in_map. }
  assert (He : nonNegative (Emission.emissions e))
    by (rewrite Forall_forall in Hall; now apply Hall).
  destruct (Emission.emissions e) as [x| | |] eqn:Ee; try contradiction.
  split; [apply Qle_bool_iff; lra|]. split; [apply Qle_bool_iff; now apply Hle|].
  destruct (fold_maxStep_bound _ 0 (Qle_refl 0) Hwf) as (M & HM & _ & Hub & _).
  unfold maxEmissionsOf. rewrite HM. apply Qle_bool_iff.
  apply (Hub (Rollup.mk (Emission.country e) (Fin q) (1 + List.length rest))).
  - unfold JsMap.values. apply in_map_iff. exists (Emission.country e, Rollup.mk (Emission.country e) (Fin q) (1 + List.length rest)).
    split; [reflexivity|]. apply get_Some_In. rewrite aggregate_get. simpl.
    rewrite R, E0, Eq. reflexivity.
  - reflexivity.
Qed.

Lemma aggregateEmissionsByCountry_dominates_witness :
  exists r,
    JsMap.get "ZZ" (aggregateEmissionsByCountry sampleRecords) = Some r /\
    Number.le (Fin 3) (Rollup.totalEmissions r) = true /\
    Number.le (Rollup.totalEmissions r)
              (maxEmissionsOf (aggregateEmissionsByCountry sampleRecords)) = true.
Proof.
  destruct (aggregateEmissionsByCountry_dominates sampleRecords (record "ZZ" 3))
    as (r & G & _ & Hle & Hmax).
  - repeat constructor; vm_compute; discriminate.
  - right. left. reflexivity.
  - exists r. repeat split; assumption.
Defined.

(** ** More on the encoding *)

Lemma maxEmissionsOf_attained (countryData : JsMap.t Rollup.t) :
  wellFormed countryData ->
  (exists r, In r (JsMap.values countryData) /\
             Number.lt (Fin 0) (Rollup.totalEmissions r) = true) ->
  exists M : Q,
    maxEmissionsOf countryData = Fin M /\ (0 < M)%Q /\
    (exists r, In r (JsMap.values countryData) /\ Rollup.totalEmissions r = Fin M) /\
    (forall r, In r (JsMap.values countryData) ->
       exists q, Rollup.totalEmissions r = Fin q /\ (0 <= q)%Q /\ (q <= M)%Q).
Proof.
  intros Hwf (r0 & Hin0 & Hpos). unfold maxEmissionsOf.
  destruct (fold_maxStep_bound (JsMap.values countryData) 0 (Qle_refl 0) Hwf)
    as (M & HM & Hle & Hub & Hwit).
  red in Hwf. rewrite Forall_forall in Hwf.
  assert (HposM : (0 < M)%Q).
  { pose proof (Hwf r0 Hin0) as H0.
    destruct (Rollup.totalEmissions r0) as [q0| | |] eqn:E0; try contradiction.
    cbn in Hpos. apply Qltb_lt in Hpos. specialize (Hub r0 q0 Hin0 E0). lra. }
  exists M. split; [assumption|]. split; [assumption|]. split.
  - destruct Hwit as [-> | Hwit]; [|assumption]. exfalso. revert HposM. apply Qlt_irrefl.
  - intros r Hin. pose proof (Hwf r Hin) as Hr.
    destruct (Rollup.totalEmissions r) as [q| | |] eqn:E; try contradiction.
    exists q. repeat split; [assumption | eauto].
Qed.

Lemma color_of_finite (a : Q) :
  getColorForEmissions (Fin a) =
  if Number.Qltb a 0.25 then "#00ff00"
  else if Number.Qltb a 0.5 then "#ffff00"
  else if Number.Qltb a 0.75 then "#ff8800"
  else "#ff0000".
Proof. reflexivity. Qed.

(** X7.  Where the totals are finite and not negative and one of them is
    positive, the scale is used from end to end: some country has the
    maximal total, every country with the maximal total is drawn red at
    size [0.35], and every country with total [0] is drawn green at size
    [0.05]. *)
Theorem transformToGlobePoints_extremes :
  forall countryData : JsMap.t Rollup.t,
    wellFormed countryData ->
    (exists r, In r (JsMap.values countryData) /\
               Number.lt (Fin 0) (Rollup.totalEmissions r) = true) ->
    (exists r, In r (JsMap.values countryData) /\
               Rollup.totalEmissions r = maxEmissionsOf countryData) /\
    (forall r, In r (JsMap.values countryData) ->
       Rollup.totalEmissions r =n= maxEmissionsOf countryData ->
       GlobePointData.color (toGlobePoint (maxEmissionsOf countryData) r) = "#ff0000" /\
       GlobePointData.size (toGlobePoint (maxEmissionsOf countryData) r) =n= Fin 0.35) /\
    (forall r, In r (JsMap.values countryData) ->
       Rollup.totalEmissions r =n= Fin 0 ->
       GlobePointData.color (toGlobePoint (maxEmissionsOf countryData) r) = "#00ff00" /\
       GlobePointData.size (toGlobePoint (maxEmissionsOf countryData) r) =n= Fin 0.05).
Proof.
  intros countryData Hwf Hpos.
  destruct (maxEmissionsOf_attained countryData Hwf Hpos)
    as (M & HM & HposM & (rmax & Hinmax & Emax) & Hfin).
  rewrite HM.
  assert (Hnz : Number.Qis0 M = false) by (apply Qis0_false; lra).
  split; [exists rmax; split; assumption|].
  split; intros r Hin Hsame; destruct (Hfin r Hin) as (q & Eq & Hq0 & HqM);
    rewrite Eq in Hsame; cbn in Hsame;
    cbn [toGlobePoint GlobePointData.color GlobePointData.size];
    unfold normalizedEmissions, sizeOf; rewrite Eq; cbn [Number.div]; rewrite Hnz;
    rewrite color_of_finite.
  - assert (H1 : (q / M == 1)%Q) by (rewrite Hsame; field; lra).
    assert (E1 : Number.Qltb (q / M) 0.25 = false) by (apply Qltb_ge; lra).
    assert (E2 : Number.Qltb (q / M) 0.5 = false) by (apply Qltb_ge; lra).
    assert (E3 : Number.Qltb (q / M) 0.75 = false) by (apply Qltb_ge; lra).
    rewrite E1, E2, E3. split; [reflexivity|]. cbn. lra.
  - assert (H0 : (q / M == 0)%Q) by (rewrite Hsame; field; lra).
    assert (E1 : Number.Qltb (q / M) 0.25 = true) by (apply Qltb_lt; lra).
    rewrite E1. split; [reflexivity|]. cbn. lra.
Qed.

Lemma sampleData_wellFormed :
  wellFormed (aggregateEmissionsByCountry sampleRecords) /\
  exists r, In r (JsMap.values (aggregateEmissionsByCountry sampleRecords)) /\
            Number.lt (Fin 0) (Rollup.totalEmissions r) = true.
Proof.
  split.
  - repeat constructor; vm_compute; discriminate.
  - exists (Rollup.mk "US" (Fin 10) 2). split; [now left | reflexivity].
Qed.

Lemma transformToGlobePoints_extremes_witness :
  exists r, In r (JsMap.values (aggregateEmissionsByCountry sampleRecords)) /\
            Rollup.totalEmissions r =
            maxEmissionsOf (aggregateEmissionsByCountry sampleRecords).
Proof.
  exact (proj1 (transformToGlobePoints_extremes
                  (aggregateEmissionsByCountry sampleRecords)
                  (proj1 sampleData_wellFormed) (proj2 sampleData_wellFormed))).
Defined.

(** X8.  Under the same condition the colour follows the total: of two
    countries of a batch, the one with the larger total is never given the
    colour of a lower band. *)
Theorem getColorForEmissions_monotone :
  forall (countryData : JsMap.t Rollup.t) (r1 r2 : Rollup.t),
    wellFormed countryData ->
    (exists r, In r (JsMap.values countryData) /\
               Number.lt (Fin 0) (Rollup.totalEmissions r) = true) ->
    In r1 (JsMap.values countryData) -> In r2 (JsMap.values countryData) ->
    Number.le (Rollup.totalEmissions r1) (Rollup.totalEmissions r2) = true ->
    (colorRank (GlobePointData.color (toGlobePoint (maxEmissionsOf countryData) r1)) <=
     colorRank (GlobePointData.color (toGlobePoint (maxEmissionsOf countryData) r2)))%nat.
Proof.
  intros countryData r1 r2 Hwf Hpos Hin1 Hin2 Hle.
  destruct (maxEmissionsOf_attained countryData Hwf Hpos)
    as (M & HM & HposM & _ & Hfin).
  rewrite HM.
  assert (Hnz : Number.Qis0 M = false) by (apply Qis0_false; lra).
  destruct (Hfin r1 Hin1) as (q1 & E1 & _ & _).
  destruct (Hfin r2 Hin2) as (q2 & E2 & _ & _).
  rewrite E1, E2 in Hle. cbn in Hle. apply Qle_bool_iff in Hle.
  cbn [toGlobePoint GlobePointData.color].
  unfold normalizedEmissions. rewrite E1, E2. cbn [Number.div]. rewrite Hnz.
  rewrite !color_of_finite.
  assert (Hd : (q1 / M <= q2 / M)%Q).
  { unfold Qdiv. apply Qmult_le_compat_r; [assumption|].
    apply Qlt_le_weak, Qinv_lt_0_compat. assumption. }
  destruct (Number.Qltb (q1 / M) 0.25) eqn:A1;
  destruct (Number.Qltb (q1 / M) 0.5) eqn:A2;
  destruct (Number.Qltb (q1 / M) 0.75) eqn:A3;
  destruct (Number.Qltb (q2 / M) 0.25) eqn:B1;
  destruct (Number.Qltb (q2 / M) 0.5) eqn:B2;
  destruct (Number.Qltb (q2 / M) 0.75) eqn:B3;
  try (vm_compute; lia);
  exfalso;
  repeat match goal with
         | H : Number.Qltb _ _ = true |- _ => apply Qltb_lt in H
         | H : Number.Qltb _ _ = false |- _ => apply Qltb_ge in H
         end; lra.
Qed.

Lemma getColorForEmissions_monotone_witness :
  (colorRank (GlobePointData.color
                (toGlobePoint (maxEmissionsOf (aggregateEmissionsByCountry sampleRecords))
                   (Rollup.mk "ZZ" (Fin 3) 1))) <=
   colorRank (GlobePointData.color
                (toGlobePoint (maxEmissionsOf (aggregateEmissionsByCountry sampleRecords))
                   (Rollup.mk "US" (Fin 10) 2))))%nat.
Proof.
  apply (getColorForEmissions_monotone (aggregateEmissionsByCountry sampleRecords)
           (Rollup.mk "ZZ" (Fin 3) 1) (Rollup.mk "US" (Fin 10) 2)
           (proj1 sampleData_wellFormed) (proj2 sampleData_wellFormed)).
  - right. now left.
  - now left.
  - reflexivity.
Defined.

(** ** The countries offered and the records selected *)

Lemma setAdd_In (seen : list string) (v c : string) :
  In c (setAdd seen v) <-> c = v \/ In c seen.
Proof.
  unfold setAdd. destruct (existsb (String.eqb v) seen) eqn:E.
  - apply existsb_eqb_In in E. split; [tauto|]. intros [-> | H]; assumption.
  - rewrite in_app_iff. simpl. intuition congruence.
Qed.

Lemma setAdd_NoDup (seen : list string) (v : string) :
  NoDup seen -> NoDup (setAdd seen v).
Proof.
  intros Hnd. unfold setAdd. destruct (existsb (String.eqb v) seen) eqn:E; [assumption|].
  assert (Hout : ~ In v seen).
  { intros Hin. apply existsb_eqb_In in Hin. congruence. }
  apply NoDup_app; [assumption | repeat constructor; simpl; tauto |].
  intros a Ha [<- | []]. contradiction.
Qed.

Lemma setFrom_spec (values : list string) :
  NoDup (setFrom values) /\ forall c, In c (setFrom values) <-> In c values.
Proof.
  unfold setFrom.
  assert (Hgen : forall l seen, NoDup seen ->
            NoDup (fold_left setAdd l seen) /\
            forall c, In c (fold_left setAdd l seen) <-> In c seen \/ In c l).
  { induction l as [|v l IH]; intros seen Hnd; simpl.
    - split; [assumption | intros c; tauto].
    - destruct (IH (setAdd seen v) (setAdd_NoDup seen v Hnd)) as [H1 H2].
      split; [assumption|]. intros c. rewrite H2, setAdd_In. intuition congruence. }
  destruct (Hgen values [] (NoDup_nil _)) as [H1 H2].
  split; [assumption|]. intros c. rewrite H2. simpl. tauto.
Qed.

Lemma insertSorted_Permutation (s : string) (l : list string) :
  Permutation (insertSorted s l) (s :: l).
Proof.
  induction l as [|h l IH]; simpl; [reflexivity|].
  destruct (String.leb s h); [reflexivity|].
  rewrite IH. apply perm_swap.
Qed.

Lemma sortStrings_Permutation (l : list string) : Permutation (sortStrings l) l.
Proof.
  induction l as [|s l IH]; simpl; [reflexivity|].
  rewrite insertSorted_Permutation. now constructor.
Qed.

Lemma insertSorted_Sorted (s : string) (l : list string) :
  Sorted (fun a b => String.leb a b = true) l ->
  Sorted (fun a b => String.leb a b = true) (insertSorted s l).
Proof.
  induction l as [|h l IH]; intros Hs; simpl.
  - repeat constructor.
  - destruct (String.leb s h) eqn:E.
    + constructor; [assumption | now constructor].
    + inversion Hs as [|? ? Hs' Hhd]; subst.
      constructor; [now apply IH|].
      assert (Hhs : String.leb h s = true).
      { destruct (String.leb_total s h); congruence. }
      destruct l as [|h' l]; simpl.
      * now constructor.
      * destruct (String.leb s h'); constructor; [assumption|].
        now inversion Hhd.
Qed.

Lemma sortStrings_Sorted (l : list string) :
  Sorted (fun a b => String.leb a b = true) (sortStrings l).
Proof.
  induction l as [|s l IH]; simpl; [constructor | now apply insertSorted_Sorted].
Qed.

(** X9.  The countries offered for selection are the countries that have a
    point on the globe when it is given the same records: the same codes,
    each once, in ascending order. *)
Theorem uniqueCountries_are_the_rollups :
  forall emissions : list Emission.t,
    Sorted (fun a b => String.leb a b = true) (uniqueCountries emissions) /\
    NoDup (uniqueCountries emissions) /\
    Permutation (uniqueCountries emissions)
                (JsMap.keys (aggregateEmissionsByCountry emissions)) /\
    (forall c, In c (uniqueCountries emissions) <->
               In c (map GlobePointData.country
                       (transformToGlobePoints (aggregateEmissionsByCountry emissions)))).
Proof.
  intros emissions. unfold uniqueCountries.
  destruct (setFrom_spec (map Emission.country emissions)) as [Hnd Hin].
  destruct (aggregate_keys emissions JsMap.empty (NoDup_nil _)) as [_ Hkeys].
  assert (Hperm : Permutation (sortStrings (setFrom (map Emission.country emissions)))
                              (JsMap.keys (aggregateEmissionsByCountry emissions))).
  { rewrite sortStrings_Permutation.
    apply NoDup_Permutation; [assumption | |].
    - apply (aggregate_keys emissions JsMap.empty (NoDup_nil _)).
    - intros c. rewrite Hin. unfold aggregateEmissionsByCountry. rewrite Hkeys.
      simpl. tauto. }
  split; [apply sortStrings_Sorted|]. split; [|split].
  - eapply Permutation_NoDup; [symmetry; apply sortStrings_Permutation | assumption].
  - assumption.
  - intros c. rewrite transformToGlobePoints_countries.
    rewrite aggregate_values_countries. split; intros H.
    + eapply Permutation_in; [exact Hperm | assumption].
    + eapply Permutation_in; [symmetry; exact Hperm | assumption].
Qed.

Lemma recordsOf_idempotent (c : string) (l : list Emission.t) :
  recordsOf c (recordsOf c l) = recordsOf c l.
Proof.
  unfold recordsOf. induction l as [|e l IH]; simpl; [reflexivity|].
  destruct (String.eqb (Emission.country e) c) eqn:E; simpl; [|assumption].
  now rewrite E, IH.
Qed.

Lemma recordsOf_countries (c k : string) (l : list Emission.t) :
  In k (map Emission.country (recordsOf c l)) <->
  k = c /\ In c (map Emission.country l).
Proof.
  unfold recordsOf. rewrite !in_map_iff. split.
  - intros (e & <- & Hin). apply filter_In in Hin. destruct Hin as [Hin He].
    apply String.eqb_eq in He. split; [assumption|]. now exists e.
  - intros [-> (e & He & Hin)]. exists e. split; [assumption|].
    apply filter_In. split; [assumption|]. now apply String.eqb_eq.
Qed.

Lemma NoDup_all_equal (c : string) (l : list string) :
  NoDup l -> (forall k, In k l -> k = c) -> l = [] \/ l = [c].
Proof.
  intros Hnd Hall. destruct l as [|a [|b l]]; [now left | right | exfalso].
  - f_equal. apply Hall. now left.
  - assert (a = c) by (apply Hall; now left).
    assert (b = c) by (apply Hall; right; now left).
    subst. inversion Hnd as [|? ? Hout _]. apply Hout. now left.
Qed.

(** X10.  Without a selection (none, or the empty string) the dashboard
    passes every record on.  With a country selected it passes on that
    country's records, so that the aggregation has the selected country's
    rollup, the same as among all the records, and no other. *)
Theorem filteredEmissions_keeps_the_rollup :
  forall (selectedCountry : option string) (emissions : list Emission.t),
    (truthyString selectedCountry = false ->
     filteredEmissions selectedCountry emissions = emissions) /\
    (forall country, selectedCountry = Some country -> country <> "" ->
       JsMap.get country
         (aggregateEmissionsByCountry (filteredEmissions selectedCountry emissions)) =
       JsMap.get country (aggregateEmissionsByCountry emissions) /\
       JsMap.keys
         (aggregateEmissionsByCountry (filteredEmissions selectedCountry emissions)) =
       (if existsb (String.eqb country) (map Emission.country emissions)
        then [country] else [])).
Proof.
  intros selected emissions. split.
  - destruct selected as [c|]; simpl; [|reflexivity]. now intros ->.
  - intros c -> Hne.
    assert (Hf : filteredEmissions (Some c) emissions = recordsOf c emissions).
    { unfold filteredEmissions, truthyString.
      apply String.eqb_neq in Hne. now rewrite Hne. }
    rewrite Hf. unfold aggregateEmissionsByCountry. split.
    + rewrite !aggregate_get. simpl. now rewrite recordsOf_idempotent.
    + destruct (aggregate_keys (recordsOf c emissions) JsMap.empty (NoDup_nil _))
        as [Hnd Hkeys].
      assert (Hin : forall k, In k (JsMap.keys (fold_left aggregateStep
                                       (recordsOf c emissions) JsMap.empty)) <->
                              k = c /\ In c (map Emission.country emissions)).
      { intros k. rewrite Hkeys, recordsOf_countries. simpl. tauto. }
      destruct (NoDup_all_equal c _ Hnd (fun k H => proj1 (proj1 (Hin k) H)))
        as [E | E]; rewrite E in *.
      * destruct (existsb (String.eqb c) (map Emission.country emissions)) eqn:X;
          [|reflexivity].
        apply existsb_eqb_In in X. exfalso.
        apply (proj2 (Hin c)); [split; [reflexivity | assumption]].
      * assert (X : In c (map Emission.country emissions))
          by (apply (Hin c); now left).
        apply existsb_eqb_In in X. now rewrite X.
Qed.

(** ** The life of a component *)

Lemma quiet_no_requests (cs : list Call) :
  filter (fun c => negb (isClickPath c)) cs = [] -> filter isRequest cs = [].
Proof.
  induction cs as [|c cs IH]; simpl; [reflexivity|].
  destruct c; simpl; try discriminate. assumption.
Qed.

Ltac use_facts :=
  repeat match goal with
         | H : False |- _ => destruct H
         | H : _ /\ _ |- _ => destruct H
         | H : ?x = ?x -> _ |- _ => specialize (H eq_refl)
         | H : ?x <> ?y -> _ |- _ => specialize (H ltac:(discriminate))
         | H : ?x = ?y -> _ |- _ => assert (x <> y) by discriminate; clear H
         | H : Some _ = None |- _ => discriminate H
         | H : None = Some _ |- _ => discriminate H
         | H : true = false |- _ => discriminate H
         | H : false = true |- _ => discriminate H
         | H : ?x <> ?x |- _ => exfalso; apply H; reflexivity
         end.

Ltac prove_Lifecycle :=
  constructor; unfold allNull; unfold_world; unfold_observations; unfold_world;
  simpl in *; rewrite ?Nat.eqb_refl in *; simpl in *;
  intros; use_facts; subst; try discriminate; repeat split;
  try reflexivity; try assumption; try congruence; try lia;
  try (now apply quiet_no_requests);
  try match goal with
      | H : Some _ = Some _ |- _ => injection H as <-
      end;
  simpl; try reflexivity;
  try match goal with
      | L : forall g, Some ?x = Some g -> _ -> pointsData g = _ |- _ =>
          now apply L
      | H : [] <> [] |- _ => exfalso; apply H; reflexivity
      end.

Lemma dispatch_Lifecycle (e : Event) (w w' : World.t) :
  Inv w -> Lifecycle w -> dispatch e w = Ok (tt, w') -> Lifecycle w'.
Proof.
  intros HI [L1 L2 L3 L4 L5 L6 L7 L8]. revert L1 L2 L3 L4 L5 L6 L7 L8.
  unfold allNull. open_Inv w HI.
  all: intros L1 L2 L3 L4 L5 L6 L7 L8.
  all: destruct b, er, gl, em; try destruct acq; use_facts; try discriminate; subst.
  all: destruct e as [ | | | | | ev | now | now | n now | | wd ht | data | chosen | ];
       try destruct data.
  all: exec.
  all: try absurd_state.
  all: intros [= <-].
  all: prove_Lifecycle.
Qed.

Lemma create_Lifecycle (isBrowser : bool) (globeContainer : option Container) :
  Lifecycle (create isBrowser globeContainer).
Proof.
  constructor; unfold allNull, drawCalls, scheduledTicks; simpl;
    intros; try congruence; try lia; repeat split; reflexivity.
Qed.

Lemma step_Lifecycle (e : Event) (w : World.t) :
  Inv w -> Lifecycle w ->
  exists w', step e w = Ok w' /\ Inv w' /\ Lifecycle w'.
Proof.
  intros HI HL. destruct (dispatch_Inv e w HI) as (w' & E & HI').
  exists w'. unfold step. rewrite E. split; [reflexivity|]. split; [assumption|].
  exact (dispatch_Lifecycle e w w' HI HL E).
Qed.

Lemma run_Lifecycle (events : list Event) : forall w,
  Inv w -> Lifecycle w ->
  exists w', run events w = Ok w' /\ Inv w' /\ Lifecycle w'.
Proof.
  induction events as [|e events IH]; intros w HI HL; simpl.
  - now exists w.
  - destruct (step_Lifecycle e w HI HL) as (w1 & E & HI1 & HL1).
    rewrite E. now apply IH.
Qed.

Lemma reachable_Lifecycle (w : World.t) : reachable w -> Lifecycle w.
Proof.
  intros (b & c & events & E).
  destruct (run_Lifecycle events (create b c) (create_Inv b c) (create_Lifecycle b c))
    as (w' & E' & _ & HL).
  congruence.
Qed.

Lemma no_requests_no_ticks (w : World.t) :
  Lifecycle w -> filter isRequest (World.calls w) = [] ->
  scheduledTicks w = 0%nat /\ drawCalls w = 0%nat.
Proof.
  intros HL H. pose proof (lc_draws w HL) as Hd.
  unfold scheduledTicks in *. rewrite H in *. simpl in *. split; lia.
Qed.

(** What no handler changes: the platform and the view child; and
    [loading], once [false], stays [false]. *)
Lemma step_constants (e : Event) (w w' : World.t) :
  step e w = Ok w' ->
  World.isBrowser w' = World.isBrowser w /\
  World.globeContainer w' = World.globeContainer w /\
  (World.loading w = false -> World.loading w' = false) /\
  (World.isBrowser w = false -> e = NgOnInit -> World.loading w' = false).
Proof.
  unfold step. open_world w. destruct e; exec.
  all: intros H; try discriminate H; injection H as <-.
  all: unfold_world; repeat split; intros; subst; try reflexivity;
       try assumption; try discriminate.
Qed.

(** X11.  On the server (no browser platform) nothing is ever acquired:
    whatever the host delivers, the initialisation is never started, every
    graphics handle stays [null], no frame is requested, nothing is drawn,
    no error is set, and [loading] is [false] from [ngOnInit] on. *)
Theorem server_side_acquires_nothing :
  forall (globeContainer : option Container) (events : list Event),
  exists w,
    run events (create false globeContainer) = Ok w /\
    World.acquisition w = NotStarted /\
    allNull w /\ World.mouse w = None /\ World.error w = None /\
    World.pendingFrames w = [] /\
    scheduledTicks w = 0%nat /\ drawCalls w = 0%nat /\
    filter isListener (World.calls w) = [] /\
    (In NgOnInit events -> World.loading w = false).
Proof.
  intros c events.
  assert (Hgen : forall evs w0, Inv w0 -> Lifecycle w0 ->
            World.isBrowser w0 = false ->
            exists w, run evs w0 = Ok w /\ Inv w /\ Lifecycle w /\
                      World.isBrowser w = false /\
                      (World.loading w0 = false \/ In NgOnInit evs ->
                       World.loading w = false)).
  { induction evs as [|e evs IH]; intros w0 HI HL Hb; simpl.
    - exists w0. split; [reflexivity|]. split; [assumption|]. split; [assumption|].
      split; [assumption|]. intros [H | []]. assumption.
    - destruct (step_Lifecycle e w0 HI HL) as (w1 & E & HI1 & HL1). rewrite E.
      destruct (step_constants e w0 w1 E) as (Hb1 & _ & Hl1 & Hl2).
      rewrite Hb in Hb1.
      destruct (IH w1 HI1 HL1 Hb1) as (w & Ew & HIw & HLw & Hbw & Hlw).
      exists w. split; [assumption|]. split; [assumption|]. split; [assumption|].
      split; [assumption|].
      intros [H | [H | H]]; apply Hlw; auto. }
  destruct (Hgen events (create false c) (create_Inv _ _) (create_Lifecycle _ _) eq_refl)
    as (w & E & HI & HL & Hb & Hl).
  exists w. split; [assumption|].
  pose proof (lc_server w HL Hb) as Ha.
  assert (Hne : World.acquisition w <> Settled) by congruence.
  destruct (lc_early w HL Hne) as (Hnull & Hmouse & Herr & Hquiet).
  destruct (no_requests_no_ticks w HL (quiet_no_requests _ Hquiet)) as [Ht Hd].
  repeat split; try assumption; try apply Hnull.
  - apply (inv_unsettled w HI Hne).
  - clear - Hquiet. induction (World.calls w) as [|x cs IH]; simpl in *; [reflexivity|].
    destruct x; simpl in *; try discriminate. auto.
  - intros H. apply Hl. now right.
Qed.

(** While nothing has been acquired and no frame is pending, no event
    acquires anything, the resolution of awaited imports apart. *)
Lemma step_keeps_null (e : Event) (w w' : World.t) :
  Inv w -> allNull w -> World.pendingFrames w = [] ->
  World.acquisition w = Settled \/ e <> ImportsResolved ->
  step e w = Ok w' -> allNull w'.
Proof.
  intros HI Hn Hp Hk. unfold step.
  set (G := allNull w').
  revert Hn Hp Hk. unfold allNull.
  open_Inv w HI; intros Hn Hp Hk; [|discriminate Hp]. clear Hp.
  use_facts; subst.
  destruct Hk as [-> | Hne]; [destruct e | destruct e; try congruence; clear Hne].
  all: exec.
  all: try absurd_state.
  all: intros [= <-]; unfold G, allNull; unfold_world; repeat split; reflexivity.
Qed.

Lemma run_keeps_null (later : list Event) : forall w,
  Inv w -> allNull w -> World.pendingFrames w = [] ->
  World.acquisition w = Settled \/ Forall (fun e => e <> ImportsResolved) later ->
  exists w',
    run later w = Ok w' /\ Inv w' /\ allNull w' /\ World.pendingFrames w' = [] /\
    scheduledTicks w' = scheduledTicks w /\ drawCalls w' = drawCalls w.
Proof.
  induction later as [|e later IH]; intros w HI Hn Hp Hl; simpl.
  - exists w. auto 10.
  - assert (He : World.acquisition w = Settled \/ e <> ImportsResolved).
    { destruct Hl as [Hs | Hl]; [now left | right]. now inversion Hl. }
    destruct (step_stopped e w HI Hp He) as (w1 & E & HI1 & Hp1 & Ht1 & Hd1 & Hs1).
    rewrite E.
    pose proof (step_keeps_null e w w1 HI Hn Hp He E) as Hn1.
    assert (Hl' : World.acquisition w1 = Settled \/
                  Forall (fun e => e <> ImportsResolved) later).
    { destruct Hl as [Hs | Hl]; [left; auto | right]. now inversion Hl. }
    destruct (IH w1 HI1 Hn1 Hp1 Hl') as (w2 & E2 & HI2 & Hn2 & Hp2 & Ht2 & Hd2).
    exists w2. split; [assumption|]. split; [assumption|]. split; [assumption|].
    split; [assumption|]. split; congruence.
Qed.

(** X12.  On either platform, until the dynamic imports have resolved there
    are no graphics: whatever else the host delivers (their rejection
    included), every graphics handle stays [null], no frame is requested
    and nothing is drawn. *)
Theorem no_graphics_before_the_imports_resolve :
  forall (isBrowser : bool) (globeContainer : option Container)
         (events : list Event),
    Forall (fun e => e <> ImportsResolved) events ->
    exists w,
      run events (create isBrowser globeContainer) = Ok w /\
      allNull w /\ World.pendingFrames w = [] /\
      scheduledTicks w = 0%nat /\ drawCalls w = 0%nat.
Proof.
  intros b c events Hev.
  assert (Hn : allNull (create b c)) by (unfold allNull; simpl; auto 10).
  destruct (run_keeps_null events (create b c) (create_Inv b c) Hn eq_refl
              (or_intror Hev))
    as (w & E & _ & Hnull & Hp & Ht & Hd).
  exists w. split; [assumption|]. split; [assumption|]. split; [assumption|].
  split; [rewrite Ht | rewrite Hd]; reflexivity.
Qed.

Lemma no_graphics_before_the_imports_resolve_witness :
  exists w,
    run [NgOnInit; NgAfterViewInit; MouseDown 0; ImportsRejected; AnimationFrame]
        (create true (Some someContainer)) = Ok w /\
    allNull w.
Proof.
  destruct (no_graphics_before_the_imports_resolve true (Some someContainer)
              [NgOnInit; NgAfterViewInit; MouseDown 0; ImportsRejected; AnimationFrame])
    as (w & E & Hnull & _).
  - repeat constructor; discriminate.
  - exists w. split; assumption.
Defined.

Lemma error_persists (e : Event) (w w' : World.t) (message : string) :
  Inv w -> Lifecycle w -> World.error w = Some message ->
  step e w = Ok w' -> World.error w' = Some message.
Proof.
  intros HI HL Herr. unfold step.
  set (G := World.error w' = Some message).
  destruct HL as [_ _ L3 _ _ _ _ _]. revert L3 Herr. unfold allNull.
  open_Inv w HI; intros L3 Herr.
  all: try destruct acq; use_facts; subst; use_facts; try congruence.
  all: destruct e; exec.
  all: try absurd_state.
  all: intros [= <-]; unfold G; unfold_world; reflexivity.
Qed.

Lemma run_error_persists (events : list Event) : forall w message,
  Inv w -> Lifecycle w -> World.error w = Some message ->
  exists w', run events w = Ok w' /\ Inv w' /\ Lifecycle w' /\
             World.error w' = Some message.
Proof.
  induction events as [|e events IH]; intros w message HI HL Herr; simpl.
  - now exists w.
  - destruct (step_Lifecycle e w HI HL) as (w1 & E & HI1 & HL1). rewrite E.
    apply IH; try assumption.
    exact (error_persists e w w1 message HI HL Herr E).
Qed.

Lemma rejection_sets_error (w : World.t) :
  Inv w -> Lifecycle w -> World.acquisition w = InFlight ->
  exists w',
    step ImportsRejected w = Ok w' /\
    World.error w' = Some "Failed to initialize 3D visualization" /\
    World.acquisition w' = Settled.
Proof.
  intros HI HL Ha. unfold step.
  destruct HL as [_ _ L3 _ _ _ _ _]. revert L3 Ha. unfold allNull.
  open_Inv w HI; intros L3 Ha; try discriminate Ha; subst.
  use_facts. subst. exec; use_facts.
  eexists. repeat split; reflexivity.
Qed.

(** X13.  When the awaited imports are rejected the component ends in its
    error state and stays there: [error] holds the message and [loading] is
    [false]; and whatever the host delivers afterwards, the message stays,
    every graphics handle stays [null], no frame is requested and nothing
    is drawn. *)
Theorem rejected_imports_are_final :
  forall (w : World.t) (later : list Event),
    reachable w -> World.acquisition w = InFlight ->
    exists w1 w2,
      step ImportsRejected w = Ok w1 /\
      World.error w1 = Some "Failed to initialize 3D visualization" /\
      run later w1 = Ok w2 /\
      World.error w2 = Some "Failed to initialize 3D visualization" /\
      World.loading w2 = false /\
      allNull w2 /\ World.pendingFrames w2 = [] /\
      scheduledTicks w2 = 0%nat /\ drawCalls w2 = 0%nat.
Proof.
  intros w later Hr Ha.
  pose proof (reachable_Inv w Hr) as HI. pose proof (reachable_Lifecycle w Hr) as HL.
  assert (Hne : World.acquisition w <> Settled) by congruence.
  destruct (lc_early w HL Hne) as (Hnull & _ & _ & Hquiet).
  destruct (no_requests_no_ticks w HL (quiet_no_requests _ Hquiet)) as [Ht Hd].
  pose proof (inv_unsettled w HI Hne) as Hp.
  assert (Hk : World.acquisition w = Settled \/ ImportsRejected <> ImportsResolved)
    by (right; discriminate).
  destruct (rejection_sets_error w HI HL Ha) as (w1 & E1 & Herr1 & Hset1).
  destruct (step_Lifecycle ImportsRejected w HI HL) as (w1' & E1' & HI1 & HL1).
  assert (w1' = w1) by congruence. subst w1'.
  destruct (step_stopped ImportsRejected w HI Hp Hk)
    as (w1' & E1'' & _ & Hp1 & Ht1 & Hd1 & _).
  assert (w1' = w1) by congruence. subst w1'.
  pose proof (step_keeps_null ImportsRejected w w1 HI Hnull Hp Hk E1) as Hnull1.
  destruct (run_error_persists later w1 _ HI1 HL1 Herr1) as (w2 & E2 & HI2 & HL2 & Herr2).
  destruct (run_keeps_null later w1 HI1 Hnull1 Hp1 (or_introl Hset1))
    as (w2' & E2' & _ & Hnull2 & Hp2 & Ht2 & Hd2).
  assert (w2' = w2) by congruence. subst w2'.
  assert (Hset : World.acquisition w2 = Settled).
  { destruct (World.acquisition w2) eqn:A; try reflexivity;
      assert (Hx : World.acquisition w2 <> Settled) by congruence;
      destruct (lc_early w2 HL2 Hx) as (_ & _ & Hnone & _); congruence. }
  exists w1, w2. split; [assumption|]. split; [assumption|]. split; [assumption|].
  split; [assumption|]. split; [apply (lc_settled w2 HL2 Hset)|].
  split; [assumption|]. split; [assumption|]. split; congruence.
Qed.

Lemma loadingState_reachable :
  reachable loadingState /\ World.acquisition loadingState = InFlight.
Proof.
  split; [|reflexivity]. exists true, (Some someContainer), [NgAfterViewInit]. reflexivity.
Qed.

Lemma rejected_imports_are_final_witness :
  exists w1 w2,
    step ImportsRejected loadingState = Ok w1 /\
    run [AnimationFrame; MouseDown 0] w1 = Ok w2 /\
    World.error w2 = Some "Failed to initialize 3D visualization".
Proof.
  destruct (rejected_imports_are_final loadingState [AnimationFrame; MouseDown 0]
              (proj1 loadingState_reachable) (proj2 loadingState_reachable))
    as (w1 & w2 & E1 & _ & E2 & Herr & _).
  exists w1, w2. repeat split; assumption.
Defined.

(** X14.  When the awaited imports resolve and the renderer gets its WebGL
    context, the component is complete at once: the scene holds the globe
    and the three lights, camera, renderer, ray caster, pointer vector and
    resize observer exist, the five listeners are registered, the globe
    shows the emissions received while loading (none if there were none),
    the first tick has run and drawn, exactly one frame is pending, and
    [loading] is [false] with no error. *)
Theorem resolved_imports_start_the_globe :
  forall (w : World.t) (container : Container),
    reachable w -> World.acquisition w = InFlight ->
    World.globeContainer w = Some container ->
    webglAvailable container = true ->
    exists w' s g,
      step ImportsResolved w = Ok w' /\
      World.scene w' = Some s /\
      children s = [GlobeObject; AmbientLight; DirectionalLight; BackLight] /\
      World.camera w' =
        Some {| aspect := clientWidth container / orElse (clientHeight container) 500 |} /\
      World.renderer w' =
        Some {| width := clientWidth container;
                height := orElse (clientHeight container) 500 |} /\
      World.globe w' = Some g /\
      pointsData g =
        match World.emissions w with
        | [] => []
        | _ => transformToGlobePoints (aggregateEmissionsByCountry (World.emissions w))
        end /\
      rotation g = World.currentRotation w' /\
      World.raycaster w' = Some TheRaycaster /\
      World.mouse w' = Some (Vector2.mk 0 0) /\
      World.resizeObserver w' = Some TheResizeObserver /\
      filter isListener (World.calls w') =
        [AddEventListener "touchmove"; AddEventListener "touchstart";
         AddEventListener "mouseup"; AddEventListener "mousedown";
         AddEventListener "mousemove"] /\
      World.animationFrameId w' = Some (World.nextFrameId w) /\
      World.pendingFrames w' = [World.nextFrameId w] /\
      scheduledTicks w' = 1%nat /\ drawCalls w' = 1%nat /\
      World.loading w' = false /\ World.error w' = None /\
      World.acquisition w' = Settled.
Proof.
  intros w [cw ch wa] Hr Ha Hcont Hwa. simpl in Hwa. subst wa.
  pose proof (reachable_Inv w Hr) as HI. pose proof (reachable_Lifecycle w Hr) as HL.
  unfold step.
  destruct HL as [_ L2 L3 _ _ _ _ _]. revert L2 L3 Ha Hcont. unfold allNull.
  open_Inv w HI; intros L2 L3 Ha Hcont; try discriminate Ha; subst.
  use_facts. subst. destruct em.
  all: exec; use_facts.
  all: do 3 eexists; (split; [reflexivity|]); unfold_world; unfold_observations;
       unfold_world; simpl.
  all: match goal with
       | H : filter _ ?cs = [] |- _ =>
           assert (Hq : filter isListener cs = [] /\ filter isRequest cs = [] /\
                        filter isRender cs = []);
           [ clear - H; induction cs as [|x cs IH]; simpl in *; [auto|];
             destruct x; simpl in *; try discriminate; auto
           | destruct Hq as (Hq1 & Hq2 & Hq3); rewrite Hq1, Hq2, Hq3 ]
       end.
  all: repeat split; reflexivity.
Qed.

Lemma resolved_imports_start_the_globe_witness :
  exists w', step ImportsResolved loadingState = Ok w' /\
             World.pendingFrames w' = [1%nat] /\ World.loading w' = false.
Proof.
  destruct (resolved_imports_start_the_globe loadingState someContainer
              (proj1 loadingState_reachable) (proj2 loadingState_reachable)
              eq_refl eq_refl)
    as (w' & s & g & E & H).
  exists w'. split; [assumption|]. split; apply H.
Defined.

Lemma run_stays_stopped (later : list Event) : forall w,
  Inv w -> World.pendingFrames w = [] -> World.acquisition w = Settled ->
  exists w',
    run later w = Ok w' /\ World.pendingFrames w' = [] /\
    scheduledTicks w' = scheduledTicks w /\ drawCalls w' = drawCalls w.
Proof.
  induction later as [|e later IH]; intros w HI Hp Hs; simpl.
  - exists w. auto.
  - destruct (step_stopped e w HI Hp (or_introl Hs))
      as (w1 & E & HI1 & Hp1 & Ht1 & Hd1 & Hs1).
    rewrite E. destruct (IH w1 HI1 Hp1 (Hs1 Hs)) as (w2 & E2 & Hp2 & Ht2 & Hd2).
    exists w2. split; [assumption|]. split; [assumption|]. split; congruence.
Qed.

Lemma cleanup_nulls (w : World.t) :
  exists w', cleanup w = Ok (tt, w') /\ allNull w'.
Proof.
  open_world w. unfold allNull. exec.
  all: eexists; (split; [reflexivity|]); unfold_world; repeat split; reflexivity.
Qed.

(** X28.  When the awaited imports resolve but the renderer gets no WebGL
    context, the component ends in its error state with what it had built
    by then: scene and camera are set, renderer, globe, ray caster, pointer
    vector and resize observer are not, no listener is registered, both
    [catch] blocks have logged, and no frame is requested.  Whatever the
    host delivers afterwards, no tick is scheduled and nothing is drawn;
    and [cleanup] then releases scene and camera. *)
Theorem failed_renderer_is_contained :
  forall (w : World.t) (container : Container) (later : list Event),
    reachable w -> World.acquisition w = InFlight ->
    World.globeContainer w = Some container ->
    webglAvailable container = false ->
    exists w1 w2 w3,
      step ImportsResolved w = Ok w1 /\
      World.error w1 = Some "Failed to initialize 3D visualization" /\
      World.loading w1 = false /\
      World.scene w1 = Some {| children := [] |} /\
      World.camera w1 =
        Some {| aspect := clientWidth container / orElse (clientHeight container) 500 |} /\
      World.renderer w1 = None /\ World.globe w1 = None /\
      World.raycaster w1 = None /\ World.mouse w1 = None /\
      World.resizeObserver w1 = None /\ World.animationFrameId w1 = None /\
      filter isListener (World.calls w1) = [] /\
      filter isConsoleError (World.calls w1) =
        [ConsoleError "Failed to initialize globe:";
         ConsoleError "Failed to load Three.js dependencies:"] /\
      run later w1 = Ok w2 /\
      World.error w2 = Some "Failed to initialize 3D visualization" /\
      World.pendingFrames w2 = [] /\
      scheduledTicks w2 = 0%nat /\ drawCalls w2 = 0%nat /\
      cleanup w2 = Ok (tt, w3) /\ allNull w3.
Proof.
  intros w [cw ch wa] later Hr Ha Hcont Hwa. simpl in Hwa. subst wa.
  pose proof (reachable_Inv w Hr) as HI. pose proof (reachable_Lifecycle w Hr) as HL.
  destruct (step_Lifecycle ImportsResolved w HI HL) as (w1 & E1 & HI1 & HL1).
  assert (H1 : World.error w1 = Some "Failed to initialize 3D visualization" /\
               World.loading w1 = false /\
               World.scene w1 = Some {| children := [] |} /\
               World.camera w1 = Some {| aspect := cw / orElse ch 500 |} /\
               World.renderer w1 = None /\ World.globe w1 = None /\
               World.raycaster w1 = None /\ World.mouse w1 = None /\
               World.resizeObserver w1 = None /\ World.animationFrameId w1 = None /\
               filter isListener (World.calls w1) = [] /\
               filter isConsoleError (World.calls w1) =
                 [ConsoleError "Failed to initialize globe:";
                  ConsoleError "Failed to load Three.js dependencies:"] /\
               World.acquisition w1 = Settled /\ World.pendingFrames w1 = [] /\
               scheduledTicks w1 = 0%nat /\ drawCalls w1 = 0%nat).
  { clear HI1 HL1. revert E1. unfold step.
    set (G := World.error w1 = Some "Failed to initialize 3D visualization" /\ _).
    destruct HL as [_ L2 L3 _ _ _ _ _]. revert L2 L3 Ha Hcont. unfold allNull.
    open_Inv w HI; intros L2 L3 Ha Hcont; try discriminate Ha; subst.
    use_facts. subst.
    exec; use_facts.
    intros [= <-]. unfold G. unfold_world; unfold_observations; unfold_world; simpl.
    match goal with
    | H : filter _ ?cs = [] |- _ =>
        assert (Hq : filter isListener cs = [] /\ filter isRequest cs = [] /\
                     filter isRender cs = [] /\ filter isConsoleError cs = []);
        [ clear - H; induction cs as [|x cs IH]; simpl in *; [auto|];
          destruct x; simpl in *; try discriminate; auto
        | destruct Hq as (Hq1 & Hq2 & Hq3 & Hq4); rewrite Hq1, Hq2, Hq3, Hq4 ]
    end.
    repeat split; reflexivity. }
  destruct H1 as (Herr & Hld & Hsc & Hcam & Hre & Hgl & Hrc & Hms & Hro & Hfid & Hli &
                  Hce & Hset & Hp & Ht & Hd).
  destruct (run_error_persists later w1 _ HI1 HL1 Herr) as (w2 & E2 & HI2 & HL2 & Herr2).
  destruct (run_stays_stopped later w1 HI1 Hp Hset)
    as (w2' & E2' & Hp2 & Ht2 & Hd2).
  assert (w2' = w2) by congruence. subst w2'.
  destruct (cleanup_nulls w2) as (w3 & E3 & Hn3).
  exists w1, w2, w3. simpl.
  repeat (split; [first [assumption | congruence]|]). assumption.
Qed.

Lemma failed_renderer_is_contained_witness :
  exists w1,
    step ImportsResolved loadingWithoutWebGL = Ok w1 /\
    World.error w1 = Some "Failed to initialize 3D visualization" /\
    World.scene w1 = Some {| children := [] |}.
Proof.
  destruct (failed_renderer_is_contained loadingWithoutWebGL plainContainer
              [AnimationFrame])
    as (w1 & w2 & w3 & E & Herr & _ & Hsc & _); try reflexivity.
  - exists true, (Some plainContainer), [NgAfterViewInit]. reflexivity.
  - exists w1. repeat split; assumption.
Defined.

(** X15.  A globe never shows stale data for a non-empty input: in every
    state the host can bring about, if the globe exists and the [emissions]
    input is not empty, the points of the globe are the encoding of the
    aggregation of that input. *)
Theorem globe_shows_the_current_emissions :
  forall (w : World.t) (g : Globe),
    reachable w ->
    World.globe w = Some g -> World.emissions w <> [] ->
    pointsData g =
    transformToGlobePoints (aggregateEmissionsByCountry (World.emissions w)).
Proof.
  intros w g Hr. apply (lc_data w (reachable_Lifecycle w Hr)).
Qed.

Lemma runningState_reachable : reachable runningState.
Proof.
  exists true, (Some someContainer), (started ++ [EmissionsChange sampleRecords]).
  vm_compute. reflexivity.
Qed.

Lemma globe_shows_the_current_emissions_witness :
  exists g, World.globe runningState = Some g /\
    pointsData g =
    transformToGlobePoints (aggregateEmissionsByCountry (World.emissions runningState)).
Proof.
  destruct (World.globe runningState) as [g|] eqn:G; [|vm_compute in G; discriminate G].
  exists g. split; [reflexivity|].
  apply (globe_shows_the_current_emissions runningState g runningState_reachable G).
  vm_compute. discriminate.
Defined.

(** X16.  An empty input clears nothing: when [emissions] becomes the empty
    list, a globe that exists keeps the points it had. *)
Theorem empty_emissions_keep_the_points :
  forall (w : World.t) (g : Globe),
    reachable w -> World.globe w = Some g ->
    exists w',
      step (EmissionsChange []) w = Ok w' /\
      World.emissions w' = [] /\
      World.globe w' = Some g.
Proof.
  intros w g Hr Hg. pose proof (reachable_Inv w Hr) as HI. clear Hr.
  unfold step. revert Hg. open_Inv w HI; intros Hg; subst.
  all: exec.
  all: try match goal with
           | H : (0 <? _)%nat = true |- _ => simpl in H; discriminate H
           end.
  all: eexists; repeat split; reflexivity.
Qed.

Lemma empty_emissions_keep_the_points_witness :
  exists g w',
    World.globe runningState = Some g /\ pointsData g <> [] /\
    step (EmissionsChange []) runningState = Ok w' /\
    World.globe w' = Some g.
Proof.
  destruct (World.globe runningState) as [g|] eqn:G; [|vm_compute in G; discriminate G].
  destruct (empty_emissions_keep_the_points runningState g runningState_reachable G)
    as (w' & E & _ & Hg).
  exists g, w'. split; [reflexivity|]. split; [|split; assumption].
  vm_compute in G. injection G as <-. discriminate.
Defined.

(** X17.  There is one render loop at most: in every state the host can
    bring about at most one frame callback is pending, its id is the one
    the component holds for cancellation, a pending frame means scene,
    camera, renderer and globe exist, and no more has been drawn than ticks
    were scheduled. *)
Theorem one_render_loop :
  forall w : World.t,
    reachable w ->
    (List.length (World.pendingFrames w) <= 1)%nat /\
    (forall id, In id (World.pendingFrames w) -> World.animationFrameId w = Some id) /\
    (World.pendingFrames w <> [] ->
     World.isBrowser w = true /\ World.scene w <> None /\ World.camera w <> None /\
     World.renderer w <> None /\ World.globe w <> None) /\
    (drawCalls w <= scheduledTicks w)%nat.
Proof.
  intros w Hr.
  pose proof (reachable_Inv w Hr) as HI. pose proof (reachable_Lifecycle w Hr) as HL.
  pose proof (inv_frames w HI) as Hf. unfold framesTracked in Hf.
  repeat split.
  - destruct Hf as [-> | (id & _ & ->)]; simpl; lia.
  - intros id Hin. destruct Hf as [E | (id' & E1 & E2)]; rewrite E in Hin || rewrite E2 in Hin.
    + destruct Hin.
    + destruct Hin as [<- | []]. assumption.
  - assert (Ha : World.acquisition w <> NotStarted).
    { intros Ha. assert (Hx : World.acquisition w <> Settled) by congruence.
      apply H. apply (inv_unsettled w HI Hx). }
    apply (lc_started w HL Ha).
  - apply (lc_running w HL H).
  - apply (lc_running w HL H).
  - apply (lc_running w HL H).
  - apply (lc_running w HL H).
  - apply (lc_draws w HL).
Qed.

Lemma one_render_loop_witness :
  (List.length (World.pendingFrames runningState) <= 1)%nat.
Proof.
  exact (proj1 (one_render_loop runningState runningState_reachable)).
Defined.

Lemma frame_keeps_running (w : World.t) :
  Inv w -> Lifecycle w -> World.pendingFrames w <> [] ->
  exists w' g,
    step AnimationFrame w = Ok w' /\
    World.pendingFrames w' = [World.nextFrameId w] /\
    World.nextFrameId w' = S (World.nextFrameId w) /\
    scheduledTicks w' = S (scheduledTicks w) /\
    drawCalls w' = S (drawCalls w) /\
    World.globe w' = Some g /\ rotation g = World.currentRotation w'.
Proof.
  intros HI HL Hp. unfold step.
  assert (Hb : World.isBrowser w = true).
  { apply (lc_started w HL). intros Ha.
    assert (Hx : World.acquisition w <> Settled) by congruence.
    apply Hp. apply (inv_unsettled w HI Hx). }
  destruct (lc_running w HL Hp) as (Hs & Hc & Hre & Hg). revert Hp Hb Hs Hc Hre Hg.
  open_Inv w HI; intros Hp Hb Hs Hc0 Hre Hg; [exfalso; now apply Hp|]. subst.
  exec.
  all: use_facts.
  all: do 2 eexists; unfold_observations; unfold_world; repeat split; reflexivity.
Qed.

(** X18.  Left alone, the loop goes on: in a state with a frame pending,
    each of any number of frames reschedules itself once and draws once,
    a frame is still pending at the end, and the rotation last applied to
    the globe is the current rotation. *)
Theorem render_loop_keeps_running :
  forall (n : nat) (w : World.t),
    reachable w -> World.pendingFrames w <> [] ->
    exists w',
      run (repeat AnimationFrame n) w = Ok w' /\
      World.pendingFrames w' <> [] /\
      scheduledTicks w' = (scheduledTicks w + n)%nat /\
      drawCalls w' = (drawCalls w + n)%nat /\
      World.nextFrameId w' = (World.nextFrameId w + n)%nat /\
      (n <> 0%nat ->
       exists g, World.globe w' = Some g /\ rotation g = World.currentRotation w').
Proof.
  intros n w Hr Hp.
  pose proof (reachable_Inv w Hr) as HI. pose proof (reachable_Lifecycle w Hr) as HL.
  clear Hr. revert w HI HL Hp.
  induction n as [|n IH]; intros w HI HL Hp; simpl.
  - exists w. repeat split; try assumption; try lia; try congruence.
  - destruct (frame_keeps_running w HI HL Hp) as (w1 & g1 & E & Hp1 & Hn1 & Ht1 & Hd1 & Hg1 & Hr1).
    destruct (step_Lifecycle AnimationFrame w HI HL) as (w1' & E' & HI1 & HL1).
    assert (w1' = w1) by congruence. subst w1'. rewrite E.
    assert (Hp1' : World.pendingFrames w1 <> []) by (rewrite Hp1; discriminate).
    destruct (IH w1 HI1 HL1 Hp1') as (w' & E2 & Hp2 & Ht2 & Hd2 & Hn2 & Hg2).
    exists w'. split; [assumption|]. split; [assumption|].
    split; [lia|]. split; [lia|]. split; [lia|]. intros _.
    destruct n as [|n]; [|apply Hg2; discriminate].
    simpl in E2. injection E2 as <-. now exists g1.
Qed.

Lemma render_loop_keeps_running_witness :
  exists w',
    run (repeat AnimationFrame 3) runningState = Ok w' /\
    scheduledTicks w' = (scheduledTicks runningState + 3)%nat.
Proof.
  destruct (render_loop_keeps_running 3 runningState runningState_reachable)
    as (w' & E & _ & Ht & _).
  - vm_compute. discriminate.
  - exists w'. split; assumption.
Defined.

(** ** Rotation *)

Lemma animate_rotation (w : World.t) :
  World.isBrowser w = true ->
  exists w',
    animate w = Ok (tt, w') /\
    World.isBrowser w' = true /\
    World.isUserInteracting w' = World.isUserInteracting w /\
    Rotation.x (World.targetRotation w') = Rotation.x (World.targetRotation w) /\
    Rotation.y (World.targetRotation w') =
      (if World.isUserInteracting w then Rotation.y (World.targetRotation w)
       else Rotation.y (World.targetRotation w) + 0.001) /\
    Rotation.x (World.currentRotation w') =
      Rotation.x (World.currentRotation w) +
      (Rotation.x (World.targetRotation w) - Rotation.x (World.currentRotation w)) * 0.1 /\
    Rotation.y (World.currentRotation w') =
      Rotation.y (World.currentRotation w) +
      (Rotation.y (World.targetRotation w) - Rotation.y (World.currentRotation w)) * 0.1.
Proof.
  intros Hb. open_world w. unfold_world. subst b. exec.
  all: eexists; repeat split; reflexivity.
Qed.

(** X19.  A tick never overshoots: for finite angles, the new current angle
    lies between the old one and the target, on either axis and from
    either side. *)
Theorem animate_never_overshoots :
  forall (w : World.t) (tx ty cx cy : Q),
    World.isBrowser w = true ->
    World.targetRotation w = Rotation.mk (Fin tx) (Fin ty) ->
    World.currentRotation w = Rotation.mk (Fin cx) (Fin cy) ->
    exists w' cx' cy',
      animate w = Ok (tt, w') /\
      World.currentRotation w' = Rotation.mk (Fin cx') (Fin cy') /\
      ((cx <= tx -> cx <= cx' /\ cx' <= tx) /\ (tx <= cx -> tx <= cx' /\ cx' <= cx))%Q /\
      ((cy <= ty -> cy <= cy' /\ cy' <= ty) /\ (ty <= cy -> ty <= cy' /\ cy' <= cy))%Q.
Proof.
  intros w tx ty cx cy Hb Ht Hc.
  destruct (animate_rotation w Hb) as (w' & E & _ & _ & _ & _ & Hx & Hy).
  rewrite Ht, Hc in Hx, Hy. cbn in Hx, Hy.
  exists w', (cx + (tx + - cx) * 0.1)%Q, (cy + (ty + - cy) * 0.1)%Q.
  split; [assumption|]. split.
  - destruct (World.currentRotation w') as [x' y']. cbn in Hx, Hy. now subst.
  - repeat split; intros; lra.
Qed.

Lemma animate_never_overshoots_witness :
  exists w' cx' cy',
    animate (World.set_targetRotation (Rotation.mk (Fin 1) (Fin (-2)))
               (create true None)) = Ok (tt, w') /\
    World.currentRotation w' = Rotation.mk (Fin cx') (Fin cy') /\
    (0 <= cx' /\ cx' <= 1)%Q.
Proof.
  destruct (animate_never_overshoots
              (World.set_targetRotation (Rotation.mk (Fin 1) (Fin (-2))) (create true None))
              1 (-2) 0 0 eq_refl eq_refl eq_refl)
    as (w' & cx' & cy' & E & Hc & (Hx & _) & _).
  exists w', cx', cy'. split; [assumption|]. split; [assumption|].
  apply Hx. vm_compute. discriminate.
Defined.

Lemma drifted_succ (n : nat) (yaw : number) :
  drifted (S n) yaw = drifted n (yaw + 0.001).
Proof.
  unfold drifted. induction n as [|n IH]; [reflexivity|].
  change (Nat.iter (S (S n)) (fun y => y + 0.001) yaw)
    with (Nat.iter (S n) (fun y => y + 0.001) yaw + 0.001).
  rewrite IH. reflexivity.
Qed.

(** The drift never turns back. *)
Lemma drifted_le (n : nat) : forall yaw : number,
  yaw <> NaN -> Number.le yaw (drifted n yaw) = true.
Proof.
  induction n as [|n IH]; intros yaw Hy.
  - destruct yaw as [q| | |]; try reflexivity; [|now elim Hy].
    cbn. apply Qle_bool_iff. apply Qle_refl.
  - rewrite drifted_succ. destruct yaw as [q| | |]; [| | |now elim Hy].
    + assert (H : Number.le (Fin (q + 0.001)) (drifted n (Fin (q + 0.001))) = true)
        by (apply IH; discriminate).
      change (Fin q + 0.001) with (Fin (q + 0.001)).
      destruct (drifted n (Fin (q + 0.001))) as [r| | |]; try exact H; cbn in *.
      apply Qle_bool_iff. apply Qle_bool_iff in H. lra.
    + apply (IH PosInf). discriminate.
    + apply (IH NegInf). discriminate.
Qed.

(** X20.  Idle ticks turn the target one way only: after [n] ticks with no
    interaction the target yaw is the old one with [0.001] added [n] times,
    which is never below the old one, and the target pitch is as it was;
    while the user interacts, ticks leave the target alone. *)
Theorem ticks_drift :
  forall (n : nat) (w : World.t),
    World.isBrowser w = true ->
    exists w',
      ticks n w = Ok w' /\
      World.isUserInteracting w' = World.isUserInteracting w /\
      Rotation.x (World.targetRotation w') = Rotation.x (World.targetRotation w) /\
      Rotation.y (World.targetRotation w') =
        (if World.isUserInteracting w then Rotation.y (World.targetRotation w)
         else drifted n (Rotation.y (World.targetRotation w))) /\
      (Rotation.y (World.targetRotation w) <> NaN ->
       Number.le (Rotation.y (World.targetRotation w))
                 (Rotation.y (World.targetRotation w')) = true).
Proof.
  assert (Hrefl : forall a : number, a <> NaN -> Number.le a a = true).
  { intros a Ha. exact (drifted_le 0 a Ha). }
  assert (Hmain : forall n w, World.isBrowser w = true ->
            exists w',
              ticks n w = Ok w' /\
              World.isUserInteracting w' = World.isUserInteracting w /\
              Rotation.x (World.targetRotation w') = Rotation.x (World.targetRotation w) /\
              Rotation.y (World.targetRotation w') =
                (if World.isUserInteracting w then Rotation.y (World.targetRotation w)
                 else drifted n (Rotation.y (World.targetRotation w)))).
  { induction n as [|n IH]; intros w Hb.
    - exists w. repeat split. now destruct (World.isUserInteracting w).
    - destruct (animate_rotation w Hb) as (w1 & E & Hb1 & Hu1 & Hx1 & Hy1 & _).
      cbn [ticks]. rewrite E.
      destruct (IH w1 Hb1) as (w' & E' & Hu' & Hx' & Hy').
      exists w'. split; [assumption|]. split; [congruence|]. split; [congruence|].
      rewrite Hy', Hu1, Hy1, drifted_succ.
      now destruct (World.isUserInteracting w). }
  intros n w Hb. destruct (Hmain n w Hb) as (w' & E & Hu & Hx & Hy).
  exists w'. repeat split; try assumption.
  intros Hn. rewrite Hy. destruct (World.isUserInteracting w).
  - now apply Hrefl.
  - now apply drifted_le.
Qed.

Lemma ticks_drift_witness :
  exists w',
    ticks 10 (create true None) = Ok w' /\
    Rotation.y (World.targetRotation w') = drifted 10 (Fin 0) /\
    Number.le (Fin 0) (Rotation.y (World.targetRotation w')) = true.
Proof.
  destruct (ticks_drift 10 (create true None) eq_refl)
    as (w' & E & _ & _ & Hy & Hle).
  exists w'. split; [assumption|]. split; [exact Hy|].
  apply Hle. discriminate.
Defined.

Lemma betweenPoles_zero : betweenPoles (Fin 0).
Proof. exists 0%Q. split; [reflexivity|]. split; vm_compute; discriminate. Qed.

Lemma PI_value_positive : (0 < Number.PI_value)%Q.
Proof. reflexivity. Qed.

Lemma half_PI :
  (Number.PI_value / 2 == Number.PI_value * (1 # 2))%Q /\
  (- Number.PI_value / 2 == - (Number.PI_value * (1 # 2)))%Q.
Proof. split; field. Qed.

Ltac pi_facts :=
  pose proof PI_value_positive; pose proof (proj1 half_PI); pose proof (proj2 half_PI).

(** Clamping a number to the poles gives a pitch between the poles. *)
Lemma clamp_betweenPoles (a : number) :
  notNaN a ->
  betweenPoles (Number.max (- Number.PI / 2) (Number.min (Number.PI / 2) a)).
Proof.
  intros Ha. pi_facts.
  assert (Hlo : (- Number.PI / 2)%js = Fin (- Number.PI_value / 2)) by reflexivity.
  assert (Hhi : (Number.PI / 2)%js = Fin (Number.PI_value / 2)) by reflexivity.
  rewrite Hlo, Hhi.
  assert (Hcases : Number.min (Fin (Number.PI_value / 2)) a = Fin (Number.PI_value / 2) \/
                   (exists q, a = Fin q /\ (q < Number.PI_value / 2)%Q /\
                              Number.min (Fin (Number.PI_value / 2)) a = Fin q) \/
                   Number.min (Fin (Number.PI_value / 2)) a = NegInf).
  { destruct a as [q| | |]; [| left; reflexivity | right; right; reflexivity
                            | exfalso; now apply Ha].
    unfold Number.min, Number.lt.
    destruct (Number.Qltb q (Number.PI_value / 2)) eqn:E; [right; left | now left].
    apply Qltb_lt in E. now exists q. }
  destruct Hcases as [-> | [(q & -> & Hq & ->) | ->]].
  - exists (Number.PI_value / 2)%Q. split; [|split; lra].
    unfold Number.max, Number.lt.
    assert (E : Number.Qltb (- Number.PI_value / 2) (Number.PI_value / 2) = true)
      by (apply Qltb_lt; lra).
    now rewrite E.
  - unfold Number.max, Number.lt.
    destruct (Number.Qltb (- Number.PI_value / 2) q) eqn:E.
    + apply Qltb_lt in E. exists q. split; [reflexivity|]. split; lra.
    + exists (- Number.PI_value / 2)%Q. split; [reflexivity|]. split; lra.
  - exists (- Number.PI_value / 2)%Q. split; [reflexivity|]. split; lra.
Qed.

Lemma drag_notNaN (q : Q) (m : number) : notNaN m -> notNaN (Fin q + m * 0.005).
Proof.
  unfold notNaN. destruct m as [p| | |]; intros Hm; try discriminate.
  exfalso. now apply Hm.
Qed.

Lemma damped_betweenPoles (t c : number) :
  betweenPoles t -> betweenPoles c -> betweenPoles (c + (t - c) * 0.1).
Proof.
  intros (qt & -> & Ht1 & Ht2) (qc & -> & Hc1 & Hc2). pi_facts.
  exists (qc + (qt + - qc) * 0.1)%Q. split; [reflexivity|]. split; lra.
Qed.

Lemma lookup_betweenPoles (countryCode : string) :
  betweenPoles (Rotation.x (rotationFor (getCountryCoordinates countryCode))).
Proof.
  pi_facts.
  assert (Hlookup : exists lat : Q,
            CountryCoordinate.lat (getCountryCoordinates countryCode) = Fin lat /\
            (-90 <= lat)%Q /\ (lat <= 90)%Q).
  { unfold getCountryCoordinates, propertyOf.
    destruct (JsMap.get (toUpperCase countryCode) COUNTRY_COORDINATES) as [c|] eqn:G.
    - apply get_Some_In in G.
      destruct (COUNTRY_COORDINATES_in_range _ _ G) as (lat & lng & E1 & _ & E2 & E3 & _).
      exists lat. auto.
    - exists 0%Q. simpl. repeat split; lra. }
  destruct Hlookup as (lat & Hlat & Hlo & Hhi).
  unfold rotationFor. cbn [Rotation.x]. rewrite Hlat.
  exists (lat * Number.PI_value / 180)%Q. split; [reflexivity|].
  assert (E : (lat * Number.PI_value / 180 == lat * Number.PI_value * (1 # 180))%Q)
    by field.
  rewrite E. split; nra.
Qed.

Lemma step_pitches (e : Event) (w w' : World.t) :
  Inv w -> steady e -> pitchesBetweenPoles w ->
  step e w = Ok w' -> pitchesBetweenPoles w'.
Proof.
  intros HI Hst (Pt & Pc & Pg). unfold step.
  set (G := pitchesBetweenPoles w').
  revert Pt Pc Pg. open_Inv w HI; intros Pt Pc Pg.
  all: destruct tr as [tx ty]; destruct cr as [cx cy]; cbn [Rotation.x Rotation.y] in *.
  all: destruct e; cbn [steady] in Hst.
  all: try match goal with
           | ev : MouseEvent |- _ => destruct ev; cbn in Hst
           end.
  all: exec.
  all: try absurd_state.
  all: intros [= <-]; unfold G, pitchesBetweenPoles; unfold_world;
       cbn [Rotation.x Rotation.y rotation].
  all: repeat split; try assumption.
  all: try (intros g0 [= <-]; cbn [Rotation.x Rotation.y rotation]).
  all: try discriminate.
  all: try (now apply Pg).
  all: try apply betweenPoles_zero.
  all: try (now apply damped_betweenPoles).
  all: try apply lookup_betweenPoles.
  all: try (destruct Pt as (qt & -> & _); apply clamp_betweenPoles; now apply drag_notNaN).
  all: try (apply damped_betweenPoles; [assumption | apply betweenPoles_zero]).
  all: try (apply damped_betweenPoles; [apply betweenPoles_zero | assumption]).
  all: try (apply damped_betweenPoles; apply betweenPoles_zero).
Qed.

(** X21.  The globe never tips over a pole: as long as no pointer movement
    is NaN, in every state the host can bring about the pitch of the
    target, of the current rotation and of the globe itself is finite and
    within [[-PI/2, PI/2]], whatever is dragged and whichever country is
    focused. *)
Theorem pitch_stays_between_the_poles :
  forall (isBrowser : bool) (globeContainer : option Container)
         (events : list Event),
    Forall steady events ->
    exists w,
      run events (create isBrowser globeContainer) = Ok w /\
      pitchesBetweenPoles w.
Proof.
  intros b c events Hev.
  assert (Hgen : forall evs w0, Inv w0 -> pitchesBetweenPoles w0 -> Forall steady evs ->
            exists w, run evs w0 = Ok w /\ pitchesBetweenPoles w).
  { induction evs as [|e evs IH]; intros w0 HI HP Hl; simpl.
    - now exists w0.
    - inversion Hl as [|? ? He Hl']; subst.
      destruct (step_Inv e w0 HI) as (w1 & E & HI1). rewrite E.
      apply IH; try assumption.
      exact (step_pitches e w0 w1 HI He HP E). }
  apply Hgen; [apply create_Inv | | assumption].
  repeat split; try apply betweenPoles_zero. discriminate.
Qed.

Lemma pitch_stays_between_the_poles_witness :
  exists w,
    run (started ++ [MouseDown 0; MouseMove (pointerAt 0 100000 1);
                     SelectedCountryChange (Some "ru"); AnimationFrame])
        (create true (Some someContainer)) = Ok w /\
    pitchesBetweenPoles w.
Proof.
  apply (pitch_stays_between_the_poles true (Some someContainer)).
  repeat constructor; discriminate.
Defined.

(** ** Pointer and touch *)

Lemma interaction_goes_on (e : Event) (w w' : World.t) :
  Inv w -> (forall now, e <> MouseUp now) ->
  World.isUserInteracting w = true ->
  step e w = Ok w' -> World.isUserInteracting w' = true.
Proof.
  intros HI Hne Hu. unfold step.
  set (G := World.isUserInteracting w' = true).
  revert Hu. open_Inv w HI; intros Hu; subst.
  all: destruct e; try (exfalso; eapply Hne; reflexivity); clear Hne.
  all: exec.
  all: try absurd_state.
  all: intros [= <-]; unfold G; unfold_world; reflexivity.
Qed.

(** X22.  A touch is never released: after a touch with one finger the
    component holds the user to be interacting until a mouse button is
    released, however many touches, moves and frames follow, so that the
    globe does not resume turning by itself.  A touch with another number
    of fingers changes nothing. *)
Theorem touch_is_never_released :
  forall (w : World.t) (now : Z) (later : list Event),
    reachable w ->
    Forall (fun e => forall t, e <> MouseUp t) later ->
    (exists w',
       run (TouchStart 1 now :: later) w = Ok w' /\
       World.isUserInteracting w' = true) /\
    (forall touches, touches <> 1%nat -> step (TouchStart touches now) w = Ok w).
Proof.
  intros w now later Hr Hl. pose proof (reachable_Inv w Hr) as HI. clear Hr. split.
  - assert (Hgen : forall evs w0, Inv w0 -> World.isUserInteracting w0 = true ->
              Forall (fun e => forall t, e <> MouseUp t) evs ->
              exists w', run evs w0 = Ok w' /\ World.isUserInteracting w' = true).
    { induction evs as [|e evs IH]; intros w0 HI0 Hu0 Hl0; simpl.
      - now exists w0.
      - inversion Hl0 as [|? ? He Hl']; subst.
        destruct (step_Inv e w0 HI0) as (w1 & E & HI1). rewrite E.
        apply IH; try assumption.
        exact (interaction_goes_on e w0 w1 HI0 He Hu0 E). }
    cbn [run].
    destruct (step_Inv (TouchStart 1 now) w HI) as (w1 & E & HI1). rewrite E.
    apply Hgen; try assumption.
    revert E. clear. unfold step.
    set (G := World.isUserInteracting w1 = true). open_world w. exec.
    all: intros [= <-]; unfold G; unfold_world.
    all: first [ reflexivity
               | match goal with
                 | H : (_ =? _)%nat = false |- _ => simpl in H; discriminate H
                 end ].
  - intros touches Hne. unfold step. clear HI Hl. open_world w.
    unfold_handlers. reduce.
    destruct (Nat.eqb touches 1) eqn:E; [apply Nat.eqb_eq in E; contradiction|].
    reflexivity.
Qed.

Lemma touch_is_never_released_witness :
  exists w',
    run (TouchStart 1 0 :: [TouchMove; AnimationFrame; MouseMove (pointerAt 1 1 0)])
        runningState = Ok w' /\
    World.isUserInteracting w' = true.
Proof.
  apply (touch_is_never_released runningState 0
           [TouchMove; AnimationFrame; MouseMove (pointerAt 1 1 0)]
           runningState_reachable).
  repeat constructor; discriminate.
Defined.

Lemma orElse_finite (h : Q) :
  orElse (Fin h) 500 = Fin (if Qeq_bool h 0 then 500 else h) /\
  ~ ((if Qeq_bool h 0 then 500 else h) == 0)%Q.
Proof.
  unfold orElse, Number.Qis0. destruct (Qeq_bool h 0) eqn:E.
  - split; [reflexivity | discriminate].
  - split; [reflexivity | now apply Qeq_bool_neq].
Qed.

Lemma div_finite (a b : Q) : ~ (b == 0)%Q -> (Fin a / Fin b)%js = Fin (a / b).
Proof.
  intros Hb. cbn. apply Qis0_false in Hb. now rewrite Hb.
Qed.

(** X23.  A resize never divides by a zero height: while the observer is
    connected and camera and renderer exist, a resize to a finite width and
    a finite height sets a finite aspect ratio, the height [0] counting as
    [500]; once the observer is disconnected a resize changes nothing. *)
Theorem resize_keeps_the_aspect_finite :
  forall (w : World.t) (newWidth newHeight : Q),
    reachable w ->
    (World.resizeObserver w <> None -> World.camera w <> None ->
     World.renderer w <> None ->
     exists w' actualHeight,
       step (Resize (Fin newWidth) (Fin newHeight)) w = Ok w' /\
       actualHeight = (if Qeq_bool newHeight 0 then 500 else newHeight)%Q /\
       ~ (actualHeight == 0)%Q /\
       World.camera w' = Some {| aspect := Fin (newWidth / actualHeight) |} /\
       World.renderer w' =
         Some {| width := Fin newWidth; height := Fin actualHeight |}) /\
    (World.resizeObserver w = None ->
     step (Resize (Fin newWidth) (Fin newHeight)) w = Ok w).
Proof.
  intros w wd ht Hr. pose proof (reachable_Inv w Hr) as HI. clear Hr. unfold step.
  destruct (orElse_finite ht) as [Hor Hnz]. split.
  - intros Ho Hc0 Hre. revert Ho Hc0 Hre. open_Inv w HI; intros Ho Hc0 Hre.
    all: exec; use_facts.
    all: rewrite Hor, (div_finite _ _ Hnz).
    all: do 2 eexists; repeat split; try reflexivity; assumption.
  - intros Ho. revert Ho. open_Inv w HI; intros Ho; subst.
    all: exec; reflexivity.
Qed.

Lemma resize_keeps_the_aspect_finite_witness :
  exists w',
    step (Resize (Fin 1024) (Fin 0)) runningState = Ok w' /\
    World.camera w' = Some {| aspect := Fin (1024 / 500) |}.
Proof.
  destruct (resize_keeps_the_aspect_finite runningState 1024 0 runningState_reachable)
    as [H _].
  destruct H as (w' & h & E & -> & _ & Hc & _); try (vm_compute; discriminate).
  exists w'. split; assumption.
Defined.

(** X24.  A pointer over the canvas is mapped into the unit square: with
    scene, camera and renderer present, a canvas rectangle of positive
    width and height and a pointer within it, the pointer vector after the
    move has both coordinates within [[-1, 1]], the left edge at [-1] and
    the top edge at [1]. *)
Theorem pointer_maps_into_the_unit_square :
  forall (w : World.t) (cx cy left top wd hg : Q) (mx my : number) (btn hits : nat),
    reachable w ->
    World.scene w <> None -> World.camera w <> None -> World.renderer w <> None ->
    (0 < wd)%Q -> (0 < hg)%Q ->
    (left <= cx)%Q -> (cx <= left + wd)%Q -> (top <= cy)%Q -> (cy <= top + hg)%Q ->
    exists w' x y,
      step (MouseMove {| clientX := Fin cx; clientY := Fin cy;
                         movementX := mx; movementY := my; buttons := btn;
                         rectLeft := Fin left; rectTop := Fin top;
                         rectWidth := Fin wd; rectHeight := Fin hg;
                         intersects := hits |}) w = Ok w' /\
      World.mouse w' = Some (Vector2.mk (Fin x) (Fin y)) /\
      (x == (cx - left) / wd * 2 - 1)%Q /\ (y == - ((cy - top) / hg) * 2 + 1)%Q /\
      (-1 <= x)%Q /\ (x <= 1)%Q /\ (-1 <= y)%Q /\ (y <= 1)%Q.
Proof.
  intros w cx cy left top wd hg mx my btn hits Hr Hs Hc0 Hre Hwd Hhg Hx1 Hx2 Hy1 Hy2.
  pose proof (reachable_Inv w Hr) as HI. clear Hr. unfold step.
  assert (Hnw : ~ (wd == 0)%Q) by lra. assert (Hnh : ~ (hg == 0)%Q) by lra.
  assert (Hdx : (Fin cx - Fin left) / Fin wd = Fin ((cx + - left) / wd))
    by (cbn [Number.sub Number.add Number.neg]; now apply div_finite).
  assert (Hdy : (Fin cy - Fin top) / Fin hg = Fin ((cy + - top) / hg))
    by (cbn [Number.sub Number.add Number.neg]; now apply div_finite).
  assert (Hrx : (0 <= (cx + - left) / wd)%Q /\ ((cx + - left) / wd <= 1)%Q).
  { split; [apply Qle_shift_div_l | apply Qle_shift_div_r]; lra. }
  assert (Hry : (0 <= (cy + - top) / hg)%Q /\ ((cy + - top) / hg <= 1)%Q).
  { split; [apply Qle_shift_div_l | apply Qle_shift_div_r]; lra. }
  revert Hs Hc0 Hre. open_Inv w HI; intros Hs Hc0 Hre.
  all: exec; use_facts.
  all: cbn [clientX clientY rectLeft rectTop rectWidth rectHeight Vector2.x Vector2.y].
  all: rewrite Hdx, Hdy; cbn [Number.sub Number.add Number.neg Number.mul].
  all: do 3 eexists; (split; [reflexivity|]); (split; [reflexivity|]).
  all: unfold Qminus, Qdiv in *; repeat split; try reflexivity; lra.
Qed.

Lemma pointer_maps_into_the_unit_square_witness :
  exists w' x y,
    step (MouseMove (pointerAt 0 0 0)) runningState = Ok w' /\
    World.mouse w' = Some (Vector2.mk (Fin x) (Fin y)) /\
    (x == 0)%Q /\ (y == 0)%Q.
Proof.
  destruct (pointer_maps_into_the_unit_square runningState 400 300 0 0 800 600
              (Fin 0) (Fin 0) 0 0 runningState_reachable)
    as (w' & x & y & E & Hm & Hx & Hy & _); try lra; try (vm_compute; discriminate).
  exists w', x, y. split; [exact E|]. split; [assumption|].
  rewrite Hx, Hy. split; vm_compute; reflexivity.
Defined.

(** X25.  Pointer moves turn the globe only while dragging.  A move with no
    press in progress, or without the primary button alone, or on a
    component that lacks scene, camera or renderer, leaves the target
    rotation as it is; a move during a press adds [movementX * 0.005] to the
    yaw and [movementY * 0.005] to the pitch, the pitch then clamped to the
    poles.  No move touches the current rotation, the press or the log. *)
Theorem pointer_moves_turn_only_while_dragging :
  forall (w : World.t) (event : MouseEvent),
    reachable w ->
    exists w',
      step (MouseMove event) w = Ok w' /\
      World.currentRotation w' = World.currentRotation w /\
      World.isUserInteracting w' = World.isUserInteracting w /\
      World.mouseDownTime w' = World.mouseDownTime w /\
      World.calls w' = World.calls w /\
      World.targetRotation w' =
        (if World.isUserInteracting w && Nat.eqb (buttons event) 1 &&
            truthy (World.scene w) && truthy (World.camera w) &&
            truthy (World.renderer w)
         then Rotation.mk
                (Number.max (- Number.PI / 2)
                   (Number.min (Number.PI / 2)
                      (Rotation.x (World.targetRotation w) + movementY event * 0.005)))
                (Rotation.y (World.targetRotation w) + movementX event * 0.005)
         else World.targetRotation w).
Proof.
  intros w event Hr. pose proof (reachable_Inv w Hr) as HI. clear Hr. unfold step.
  open_Inv w HI.
  all: exec.
  all: try absurd_state.
  all: eexists; (split; [reflexivity|]); unfold_world; cbv [andb truthy];
       repeat split; try reflexivity.
  all: match goal with
       | H : (_ =? _)%nat = _ |- _ => rewrite H
       end; reflexivity.
Qed.

Lemma pointer_moves_turn_only_while_dragging_witness :
  exists w',
    step (MouseMove (pointerAt 10 0 1)) runningState = Ok w' /\
    World.targetRotation w' = World.targetRotation runningState.
Proof.
  destruct (pointer_moves_turn_only_while_dragging runningState (pointerAt 10 0 1)
              runningState_reachable)
    as (w' & E & _ & _ & _ & _ & Ht).
  exists w'. split; [assumption|]. rewrite Ht. vm_compute. reflexivity.
Defined.

(** X26.  A selection focuses the globe only when there is one: a selected
    country of [null] or the empty string, or any selection on the server,
    leaves the target rotation as it is; in a browser, a code that has no
    coordinates turns the globe to latitude 0, longitude 0. *)
Theorem selection_focuses_when_there_is_one :
  forall (w : World.t) (selected : option string),
    reachable w ->
    exists w',
      step (SelectedCountryChange selected) w = Ok w' /\
      World.selectedCountry w' = selected /\
      (truthyString selected = false \/ World.isBrowser w = false ->
       World.targetRotation w' = World.targetRotation w) /\
      (forall code, selected = Some code -> code <> "" ->
       World.isBrowser w = true ->
       World.targetRotation w' = rotationFor (getCountryCoordinates code) /\
       (hasCountryCoordinates code = false ->
        Rotation.x (World.targetRotation w') =n= Fin 0 /\
        Rotation.y (World.targetRotation w') =n= Fin 0)).
Proof.
  intros w selected Hr. pose proof (reachable_Inv w Hr) as HI. clear Hr. unfold step.
  assert (Hunknown : forall code, hasCountryCoordinates code = false ->
            Rotation.x (rotationFor (getCountryCoordinates code)) =n= Fin 0 /\
            Rotation.y (rotationFor (getCountryCoordinates code)) =n= Fin 0).
  { intros code. unfold hasCountryCoordinates, getCountryCoordinates.
    destruct (propertyOf (toUpperCase code)); [discriminate|]. intros _.
    split; vm_compute; reflexivity. }
  open_Inv w HI.
  all: destruct selected as [code|]; exec.
  all: eexists; (split; [reflexivity|]); unfold_world; (split; [reflexivity|]).
  all: split; [ intros [H | H]; try discriminate H; try reflexivity
              | intros code0 Hsel Hne Hb; try discriminate;
                try (injection Hsel as <-) ].
  all: try (split; [reflexivity | apply Hunknown]).
  all: try (unfold truthyString in *; congruence).
  all: try match goal with
           | Hx : truthyString (Some ?c) = false, Hy : ?c <> "" |- _ =>
               exfalso; unfold truthyString in Hx; apply negb_false_iff in Hx;
               apply String.eqb_eq in Hx; contradiction
           end.
Qed.

Lemma selection_focuses_when_there_is_one_witness :
  exists w',
    step (SelectedCountryChange (Some "ZZ")) runningState = Ok w' /\
    Rotation.x (World.targetRotation w') =n= Fin 0.
Proof.
  destruct (selection_focuses_when_there_is_one runningState (Some "ZZ")
              runningState_reachable)
    as (w' & E & _ & _ & H).
  exists w'. split; [assumption|].
  apply (H "ZZ" eq_refl); [discriminate | vm_compute; reflexivity | reflexivity].
Defined.

(** X27.  [cleanup] is safe in any state, not only in those the host can
    bring about: it never throws, it leaves every graphics handle [null],
    a second [cleanup] changes nothing, and it touches neither the
    rotation, nor the pointer state, nor [loading], [error] or the inputs. *)
Theorem cleanup_releases_everything :
  forall w : World.t,
  exists w',
    cleanup w = Ok (tt, w') /\
    allNull w' /\
    cleanup w' = Ok (tt, w') /\
    World.targetRotation w' = World.targetRotation w /\
    World.currentRotation w' = World.currentRotation w /\
    World.mouse w' = World.mouse w /\
    World.isUserInteracting w' = World.isUserInteracting w /\
    World.mouseDownTime w' = World.mouseDownTime w /\
    World.loading w' = World.loading w /\
    World.error w' = World.error w /\
    World.emissions w' = World.emissions w /\
    World.selectedCountry w' = World.selectedCountry w /\
    World.acquisition w' = World.acquisition w.
Proof.
  intros w. open_world w. unfold allNull. exec.
  all: eexists; (split; [reflexivity|]); unfold_world.
  all: split; [repeat split; reflexivity|].
  all: split; [exec; reflexivity|].
  all: repeat split; reflexivity.
Qed.
